(** * Nearest reference point on several GPUs: the dispatcher of
      [multi-gpu-threading-rmm-numba.ipynb]

    The notebook defines two Python functions.  [get_nearest] allocates the
    two output arrays, and either launches the two kernels once over all
    observations (single-device path) or cuts the observation range into
    jobs, deals the jobs over one [queue.Queue] per device, starts one thread
    per queue and joins them.  [_get_nearest_multi] is the thread body: it
    binds the thread to a device and runs the two kernels on every job of its
    queue.

    Conventions of the embedding.
    - Python integers are [Z]; [int(a / b)] is truncation of the true
      quotient, [Z.quot] (exact for operands below 2^53, which array lengths
      are); division by zero raises.
    - [batch_size] and [n_gpus] are either the string "auto" or a number.
    - A device array is a list of cells; a cell is [None] until a kernel
      stores a value in it ([cuda.device_array] does not initialise).  The
      element types [uint32] and [float32] are kept abstract: indices are
      natural numbers and distances range over a type [D] compared by [ltb].
    - The two output arrays are shared by every job; they live in one
      [device_mem] that all workers transform, together with a ghost log of
      the cells written.
    - A thread that raises dies silently ([threading.Thread] does not pass
      the exception to [join]); a thread blocked in [Queue.get] never ends.
    - The device calls of a job may fail at any point of the iteration, the
      last of them being [cuda.synchronize()], which comes after
      [global_min_reduce] was launched on the views of the job: a failed job
      may have stored anything into the cells of its own views.
    - Workers own their queue and, as proved below, disjoint output cells;
      the model runs them one after the other in the order they are started.
    - The kernels [block_min_reduce] and [global_min_reduce] and the device
      function for the haversine distance belong to [src/solvers.py], whose
      code is not available: they are modelled from sections 4.1 to 4.3 of
      the specification. *)

From Stdlib Require Import ZArith Lia.
From stdpp Require Import base numbers list.

(** ** Python values and control *)

Inductive exn : Type :=
| ZeroDivisionError
| IndexError
| CudaError.

Inductive run (A : Type) : Type :=
| Returns (a : A)
| Raises (e : exn)
| Hangs.

Arguments Returns {A} a.
Arguments Raises {A} e.
Arguments Hangs {A}.

#[global] Instance run_ret : MRet run := fun _ a => Returns a.

#[global] Instance run_bind : MBind run := fun _ _ k r =>
  match r with
  | Returns a => k a
  | Raises e => Raises e
  | Hangs => Hangs
  end.

#[global] Instance run_fmap : FMap run := fun _ _ f r =>
  match r with
  | Returns a => Returns (f a)
  | Raises e => Raises e
  | Hangs => Hangs
  end.

(** The value of a keyword argument that is either ["auto"] or a number. *)
Inductive setting : Type :=
| Auto
| Num (z : Z).

(** [int(a / b)]: true division, then truncation towards zero. *)
Definition int_truediv (a b : Z) : run Z :=
  if (b =? 0)%Z then Raises ZeroDivisionError else Returns (Z.quot a b).

(** [range(n)]: empty when [n <= 0]. *)
Definition range (n : Z) : list Z := Z.of_nat <$> seq 0 (Z.to_nat n).

(** Bound of a Python slice over a sequence of length [len]: a negative
    bound counts from the end, and every bound is clipped to [0..len]. *)
Definition slice_bound (len : nat) (i : Z) : nat :=
  Z.to_nat (if (i <? 0)%Z then Z.max 0 (i + Z.of_nat len)
            else Z.min i (Z.of_nat len)).

(** [l[s:e]] *)
Definition slice {A : Type} (l : list A) (s e : Z) : list A :=
  let lo := slice_bound (length l) s in
  let hi := slice_bound (length l) e in
  take (hi - lo) (drop lo l).

(** ** The CUDA runtime seen from the notebook

    [n_devices] is [len(cuda.list_devices())]; [launch_ok cid s e] tells
    whether the copies, the allocations, the kernel launches and the
    synchronisation of the job [s..e] all succeed on device [cid].  When they
    do not, [left_by_failure cid s e k] is what the iteration had stored
    through the two output views of the job, in the index cell and in the
    distance cell of its row [k], by the time the exception was raised:
    [None] for no store, [Some v] for a store of [v], which need not be the
    value a successful job stores. *)
Record cuda (D : Type) : Type := {
  n_devices : nat;
  launch_ok : nat -> Z -> Z -> bool;
  left_by_failure : nat -> Z -> Z -> nat -> option nat * option D
}.

Arguments n_devices {D} _.
Arguments launch_ok {D} _ _ _ _.
Arguments left_by_failure {D} _ _ _ _ _.

(** ** queue.Queue *)

Record Queue (J : Type) : Type := {
  items : list J;
  unfinished_tasks : nat
}.

Arguments items {J} _.
Arguments unfinished_tasks {J} _.

Definition Queue_new {J : Type} : Queue J :=
  {| items := []; unfinished_tasks := 0 |}.

Definition put {J : Type} (q : Queue J) (x : J) : Queue J :=
  {| items := items q ++ [x]; unfinished_tasks := S (unfinished_tasks q) |}.

(** Events of the dispatcher thread, in program order. *)
Inductive event : Type :=
| EvPut (qid : nat) (s e : Z)
| EvStart (qid : nat)
| EvJoin (qid : nat).

Inductive thread_end : Type :=
| Returned
| Died (e : exn)
| Blocked.

Definition is_blocked (t : thread_end) : bool :=
  match t with Blocked => true | _ => false end.

Section Nearest.

Context {coord D : Type}.

(** A point is (latitude, longitude), in radians. *)
Definition point : Type := (coord * coord)%type.

(** Modelled from the spec: the device function of [src/solvers.py] for the
    great-circle distance (section 4.1), a pure function of two points.  Its
    floating-point formula is not modelled, only that it yields a distance. *)
Variable haversine : point -> point -> D.

(** Strict less-than on distances, the comparison of the kernels. *)
Variable ltb : D -> D -> bool.

(** A candidate: reference index and distance; [None] for an execution unit
    that has seen no reference. *)
Definition cand : Type := option (nat * D).

(** Modelled from the spec: the tie-break rule shared by the two kernels of
    [src/solvers.py] (sections 4.2 and 4.3): the running minimum is replaced
    only by a strictly smaller distance, and a unit without candidate does
    not take part in comparisons. *)
Definition keep_min (acc c : cand) : cand :=
  match acc, c with
  | None, _ => c
  | Some _, None => acc
  | Some (_, d0), Some (_, d) => if ltb d d0 then c else acc
  end.

Definition cand_idx (c : cand) : option nat :=
  match c with Some (j, _) => Some j | None => None end.

Definition cand_dist (c : cand) : option D :=
  match c with Some (_, d) => Some d | None => None end.

Definition min_reduce (cs : list cand) : cand := fold_left keep_min cs None.

Definition candidates (o : point) (chunk : list (nat * point)) : list cand :=
  (fun jr => Some (jr.1, haversine o jr.2)) <$> chunk.

(** Cut [l] into [B] consecutive runs of [c] elements (the last ones may be
    short or empty). *)
Fixpoint split_units {A : Type} (B c : nat) (l : list A) : list (list A) :=
  match B with
  | 0 => []
  | S B' => take c l :: split_units B' c (drop c l)
  end.

Definition chunk_len (B n : nat) : nat := (n + B - 1) / B.

(** Modelled from the spec: the partition of the reference set over the [B]
    execution units of [block_min_reduce] (section 4.2).  The spec does not
    say which references a unit scans; here unit [u] scans the [u]-th run of
    [ceil(N_REF / B)] consecutive references, in index order, so that the
    earliest unit holds the lowest indices.  This is one assignment among
    those the spec allows: the distance found does not depend on it, the
    index found among references at equal distance does ([kernels_with]
    below takes the assignment as an argument). *)
Definition unit_refs (B : nat) (d_ref : list point) : list (list (nat * point)) :=
  split_units B (chunk_len B (length d_ref)) (imap pair d_ref).

(** Modelled from the spec: kernel [block_min_reduce] of [src/solvers.py]
    (section 4.2).  For each observation of the slice and each of the [B]
    units, the minimum of the unit's references; the result is the array of
    shape (slice length, B) that the notebook passes as [d_block_idx] and
    [d_block_dist]. *)
Definition block_min_reduce (B : nat) (d_ref d_obs : list point) : list (list cand) :=
  (fun o => (fun ch => min_reduce (candidates o ch)) <$> unit_refs B d_ref) <$> d_obs.

(** Modelled from the spec: kernel [global_min_reduce] of [src/solvers.py]
    (section 4.3).  For each observation, the minimum of its [B] candidates
    under the same rule; one (index, distance) per row.  The candidates are
    combined from unit 0 upwards; the spec says "tree or pairwise
    reduction" and fixes no order, which again only matters for the index
    found among equal distances ([tree_reduce] below takes the order as an
    argument). *)
Definition global_min_reduce (d_block : list (list cand)) : list cand :=
  min_reduce <$> d_block.

(** What the two kernels leave for one observation. *)
Definition reduce_pair (B : nat) (d_ref : list point) (o : point) : cand :=
  min_reduce ((fun ch => min_reduce (candidates o ch)) <$> unit_refs B d_ref).

(** The nearest reference of one observation by a single scan in index
    order: what the two kernels are compared with. *)
Definition nearest (d_ref : list point) (o : point) : cand :=
  min_reduce (candidates o (imap pair d_ref)).





(** *** Device memory *)

Record device_mem : Type := {
  out_idx : list (option nat);
  out_dist : list (option D);
  written : list nat
}.

(** [cuda.device_array(n)] twice, as at the head of [get_nearest]. *)
Definition device_arrays (n : nat) : device_mem :=
  {| out_idx := replicate n None; out_dist := replicate n None; written := [] |}.

(** Store [vals] through the view of [len] cells that starts at cell [lo]
    of [buf]: row [i] of the kernel goes to cell [lo + i]. *)
Definition write_view {V : Type} (lo len : nat) (vals : list (option V))
    (buf : list (option V)) : list (option V) :=
  let new := take len vals in
  take lo buf ++ new ++ drop (lo + length new) buf.

(** What a failed job leaves in the view of [len] cells that starts at cell
    [lo] of [buf]: cell [lo + k] holds [v] when [stored k = Some v] and is
    untouched otherwise; no cell outside the view changes. *)
Definition spoil {V : Type} (lo len : nat) (stored : nat -> option V)
    (buf : list (option V)) : list (option V) :=
  imap (fun i old =>
          if decide (lo <= i < lo + len)
          then match stored (i - lo) with Some v => Some v | None => old end
          else old) buf.

(** A view of an array: offset and length.  [slice_view len s e] is the
    view [a[s:e]] of an array of [len] cells. *)
Definition slice_view (len : nat) (s e : Z) : nat * nat :=
  (slice_bound len s, slice_bound len e - slice_bound len s).

(** The pair of kernel launches and [cuda.synchronize()]; [v_dist] and
    [v_idx] are the views passed as the last two arguments of
    [global_min_reduce].  The result of the model kernels is stored row by
    row through the views. *)
Definition launch (B : nat) (d_ref d_obs : list point) (v_dist v_idx : nat * nat)
    (m : device_mem) : device_mem :=
  let res := global_min_reduce (block_min_reduce B d_ref d_obs) in
  {| out_idx := write_view v_idx.1 v_idx.2 (cand_idx <$> res) (out_idx m);
     out_dist := write_view v_dist.1 v_dist.2 (cand_dist <$> res) (out_dist m);
     written := written m ++ seq v_idx.1 (length (take v_idx.2 res)) |}.

(** *** Jobs and the worker thread *)

Record job : Type := {
  start : Z;
  end_ : Z;
  d_m_ref : list point;
  d_m_obs : list point
}.

(** Body of the [while] loop of [_get_nearest_multi] between [q.get()] and
    [q.task_done()]: the observations and both output arrays are sliced by
    [job["start"]:job["end"]], the block arrays have 32 columns and one row
    per observation of the slice ([end - start] rows, which is the length of
    the slice for every job that [get_nearest] builds). *)
Definition run_job (jb : job) (m : device_mem) : device_mem :=
  launch 32 (d_m_ref jb) (slice (d_m_obs jb) (start jb) (end_ jb))
    (slice_view (length (out_dist m)) (start jb) (end_ jb))
    (slice_view (length (out_idx m)) (start jb) (end_ jb)) m.

(** Cell [i] lies in the range of the job. *)
Definition covers (jb : job) (i : nat) : Prop :=
  (start jb <= Z.of_nat i < end_ jb)%Z.

Definition job_range (jb : job) : Z * Z := (start jb, end_ jb).

(** The cells of the range of a job, in increasing order. *)
Definition cells (jb : job) : list nat :=
  seq (Z.to_nat (start jb)) (Z.to_nat (end_ jb - start jb)).

Record worker : Type := {
  w_end : thread_end;
  w_queue : Queue job;
  w_mem : device_mem;
  w_iters : nat
}.

Variable cu : cuda D.

(** The body of the loop for a job whose device calls fail on device
    [cid]: the views are the slices [job["start"]:job["end"]] of the two
    output arrays, as in [run_job], and hold what the failure left. *)
Definition fail_job (cid : nat) (jb : job) (m : device_mem) : device_mem :=
  let v_dist := slice_view (length (out_dist m)) (start jb) (end_ jb) in
  let v_idx := slice_view (length (out_idx m)) (start jb) (end_ jb) in
  let stored := left_by_failure cu cid (start jb) (end_ jb) in
  {| out_idx := spoil v_idx.1 v_idx.2 (fun k => (stored k).1) (out_idx m);
     out_dist := spoil v_dist.1 v_dist.2 (fun k => (stored k).2) (out_dist m);
     written := written m
                ++ filter (fun i => is_Some (stored (i - v_idx.1)).1 \/
                                    is_Some (stored (i - v_idx.1)).2)
                     (seq v_idx.1 v_idx.2) |}.

(** [while q.unfinished_tasks > 0: job = q.get(); ...; q.task_done()] on
    the queue with items [its] and counter [unf], after [k] iterations.
    [q.get()] on an empty queue blocks: nothing is put once workers run.
    An exception in the body ends the thread: the job was taken off the
    queue, [q.task_done()] is not reached. *)
Fixpoint worker_loop (cid : nat) (its : list job) (unf k : nat)
    (m : device_mem) {struct its} : worker :=
  match unf with
  | 0 => {| w_end := Returned;
            w_queue := {| items := its; unfinished_tasks := 0 |};
            w_mem := m; w_iters := k |}
  | S unf' =>
      match its with
      | [] => {| w_end := Blocked;
                 w_queue := {| items := []; unfinished_tasks := unf |};
                 w_mem := m; w_iters := k |}
      | jb :: rest =>
          if launch_ok cu cid (start jb) (end_ jb)
          then worker_loop cid rest unf' (S k) (run_job jb m)
          else {| w_end := Died CudaError;
                  w_queue := {| items := rest; unfinished_tasks := unf |};
                  w_mem := fail_job cid jb m; w_iters := k |}
      end
  end.

(** The jobs that the loop completes on device [cid]: those before the
    first launch that fails. *)
Fixpoint served (cid : nat) (its : list job) : list job :=
  match its with
  | [] => []
  | jb :: rest =>
      if launch_ok cu cid (start jb) (end_ jb) then jb :: served cid rest else []
  end.

(** The jobs that the loop leaves undone: the one whose launch fails first
    and those behind it in the queue. *)
Fixpoint unserved (cid : nat) (its : list job) : list job :=
  match its with
  | [] => []
  | jb :: rest =>
      if launch_ok cu cid (start jb) (end_ jb) then unserved cid rest else its
  end.

(** The job in whose iteration the loop dies (none or one), and the jobs
    behind it, which the loop never takes off the queue. *)
Definition failed (cid : nat) (its : list job) : list job :=
  take 1 (unserved cid its).

Definition unstarted (cid : nat) (its : list job) : list job :=
  drop 1 (unserved cid its).

(** One iteration of a worker as a transformation of the device memory. *)
Inductive step : Type :=
| Done (jb : job)
| Failed (cid : nat) (jb : job).

Definition run_step (m : device_mem) (st : step) : device_mem :=
  match st with
  | Done jb => run_job jb m
  | Failed cid jb => fail_job cid jb m
  end.

(** The iterations of the loop on device [cid], in order. *)
Fixpoint steps (cid : nat) (its : list job) : list step :=
  match its with
  | [] => []
  | jb :: rest =>
      if launch_ok cu cid (start jb) (end_ jb)
      then Done jb :: steps cid rest else [Failed cid jb]
  end.

Definition done_jobs (sts : list step) : list job :=
  omap (fun st => match st with Done jb => Some jb | Failed _ _ => None end) sts.

Definition failed_jobs (sts : list step) : list job :=
  omap (fun st => match st with Done _ => None | Failed _ jb => Some jb end) sts.

Definition step_job (st : step) : job :=
  match st with Done jb => jb | Failed _ jb => jb end.

(** The cells that an iteration stores into, for the ghost log: all the
    cells of the range of a completed job, and the cells of a failed job that
    received a store in either array. *)
Definition logged (st : step) : list nat :=
  match st with
  | Done jb => cells jb
  | Failed cid jb =>
      filter (fun i =>
                is_Some (left_by_failure cu cid (start jb) (end_ jb)
                           (i - Z.to_nat (start jb))).1 \/
                is_Some (left_by_failure cu cid (start jb) (end_ jb)
                           (i - Z.to_nat (start jb))).2)
        (cells jb)
  end.

(** [_get_nearest_multi(q, cid)]: [cuda.select_device(cid)] raises for a
    device that does not exist. *)
Definition _get_nearest_multi (q : Queue job) (cid : nat) (m : device_mem) : worker :=
  if (cid <? n_devices cu)%nat
  then worker_loop cid (items q) (unfinished_tasks q) 0 m
  else {| w_end := Died CudaError; w_queue := q; w_mem := m; w_iters := 0 |}.

(** *** The dispatcher *)

Section Jobs.

Variables (obs_points ref_points : list point).
Variables (size batch_size n_jobs : Z).

(** The job built in iteration [j] of the [for] loop. *)
Definition make_job (j : Z) : job :=
  {| start := j * batch_size;
     end_ := if (j =? n_jobs - 1)%Z then size else (j + 1) * batch_size;
     d_m_ref := ref_points;
     d_m_obs := obs_points |}.

(** [for j in range(n_jobs)]: reset [qid] when it runs off the queues, build
    the job, put it on [queues[qid]], increment [qid]. *)
Fixpoint enqueue_jobs (js : list Z) (qid : nat) (queues : list (Queue job))
    (log : list event) : run (list (Queue job) * list event) :=
  match js with
  | [] => Returns (queues, log)
  | j :: js' =>
      let qid := if (length queues <=? qid)%nat then 0%nat else qid in
      let jb := make_job j in
      match queues !! qid with
      | None => Raises IndexError
      | Some q =>
          enqueue_jobs js' (S qid) (<[qid := put q jb]> queues)
            (log ++ [EvPut qid (start jb) (end_ jb)])
      end
  end.

End Jobs.

(** [if n_gpus == "auto": n_gpus = len(cuda.list_devices())] *)
Definition resolve_n_gpus (n_gpus : setting) : Z :=
  match n_gpus with
  | Auto => Z.of_nat (n_devices cu)
  | Num g => g
  end.

(** [if batch_size == 'auto': batch_size = size/(n_gpus)], then
    [batch_size = int(batch_size)]; a batch size given by the caller is taken
    as an integer already. *)
Definition resolve_batch_size (size : Z) (batch_size : setting) (n_gpus : Z) : run Z :=
  match batch_size with
  | Auto => int_truediv size n_gpus
  | Num b => Returns b
  end.

(** [for qid in range(len(queues)): w = Thread(...); w.start()] *)
Fixpoint start_workers (qid : nat) (queues : list (Queue job)) (m : device_mem)
    : list worker * device_mem :=
  match queues with
  | [] => ([], m)
  | q :: qs =>
      let w := _get_nearest_multi q qid m in
      let r := start_workers (S qid) qs (w_mem w) in
      (w :: r.1, r.2)
  end.

(** The jobs completed by the workers of the queues [queues], the first of
    which is bound to device [qid], in the order the model runs them. *)
Fixpoint served_all (qid : nat) (queues : list (Queue job)) : list job :=
  match queues with
  | [] => []
  | q :: qs =>
      (if (qid <? n_devices cu)%nat then served qid (items q) else [])
      ++ served_all (S qid) qs
  end.

(** The jobs that no worker completes. *)
Fixpoint unserved_all (qid : nat) (queues : list (Queue job)) : list job :=
  match queues with
  | [] => []
  | q :: qs =>
      (if (qid <? n_devices cu)%nat then unserved qid (items q) else items q)
      ++ unserved_all (S qid) qs
  end.

(** The jobs in whose iteration a worker dies, and the jobs that no worker
    takes off its queue: those behind a failed one, and all the jobs of a
    queue whose number is not a device. *)
Fixpoint failed_all (qid : nat) (queues : list (Queue job)) : list job :=
  match queues with
  | [] => []
  | q :: qs =>
      (if (qid <? n_devices cu)%nat then failed qid (items q) else [])
      ++ failed_all (S qid) qs
  end.

Fixpoint unstarted_all (qid : nat) (queues : list (Queue job)) : list job :=
  match queues with
  | [] => []
  | q :: qs =>
      (if (qid <? n_devices cu)%nat then unstarted qid (items q) else items q)
      ++ unstarted_all (S qid) qs
  end.

(** The iterations of all the workers, in the order the model runs them. *)
Fixpoint steps_all (qid : nat) (queues : list (Queue job)) : list step :=
  match queues with
  | [] => []
  | q :: qs =>
      (if (qid <? n_devices cu)%nat then steps qid (items q) else [])
      ++ steps_all (S qid) qs
  end.

(** What one call leaves behind. *)
Record round : Type := {
  r_mem : device_mem;
  r_queues : list (Queue job);
  r_workers : list worker;
  r_log : list event
}.

(** [for w in workers: w.join()] and the [return]: joining a thread that
    is blocked never ends. *)
Definition join_all (queues : list (Queue job)) (log : list event)
    (ws : list worker * device_mem) : run round :=
  if existsb (fun w => is_blocked (w_end w)) ws.1 then Hangs
  else Returns {| r_mem := ws.2; r_queues := queues; r_workers := ws.1;
                  r_log := log ++ (EvJoin <$> seq 0 (length ws.1)) |}.

(** The body of [get_nearest], keeping the queues, the workers and the log
    next to the arrays.  The single-device path launches on the current
    device, device 0; an exception there reaches the caller. *)
Definition get_nearest_round (obs_points ref_points : list point)
    (batch_size : setting) (multigpu : bool) (n_gpus : setting) : run round :=
  let m0 := device_arrays (length obs_points) in
  if negb multigpu then
    if launch_ok cu 0 0 (Z.of_nat (length obs_points)) then
      Returns {| r_mem := launch 32 ref_points obs_points
                            (0, length (out_dist m0)) (0, length (out_idx m0)) m0;
                 r_queues := []; r_workers := []; r_log := [] |}
    else Raises CudaError
  else
    let n_gpus := resolve_n_gpus n_gpus in
    let size := Z.of_nat (length obs_points) in
    batch_size ← resolve_batch_size size batch_size n_gpus;
    n_jobs ← int_truediv size (Z.min batch_size size);
    let queues := replicate (Z.to_nat n_gpus) Queue_new in
    ql ← enqueue_jobs obs_points ref_points size batch_size n_jobs
           (range n_jobs) 0 queues [];
    join_all ql.1 (ql.2 ++ (EvStart <$> seq 0 (length ql.1)))
      (start_workers 0 ql.1 m0).

(** [get_nearest(obs_points, ref_points, batch_size, multigpu, n_gpus)]
    returns [(out_idx, out_dist)]. *)
Definition get_nearest (obs_points ref_points : list point)
    (batch_size : setting) (multigpu : bool) (n_gpus : setting)
    : run (list (option nat) * list (option D)) :=
  r ← get_nearest_round obs_points ref_points batch_size multigpu n_gpus;
  Returns (out_idx (r_mem r), out_dist (r_mem r)).

End Nearest.

Arguments device_mem : clear implicits.
Arguments job : clear implicits.
Arguments worker : clear implicits.
Arguments round : clear implicits.
Arguments step : clear implicits.

Arguments covers {coord} _ _.
Arguments job_range {coord} _.
Arguments cells {coord} _.

#[global] Instance covers_dec {coord : Type} (jb : job coord) (i : nat) :
  Decision (covers jb i).
Proof. unfold covers. apply _. Defined.

(** ** A small instance

    Points with integer coordinates and the taxicab distance stand in for
    radians and the haversine distance where a statement is tried on concrete
    data. *)

Definition grid_distance (a b : Z * Z) : Z :=
  Z.abs (a.1 - b.1) + Z.abs (a.2 - b.2).

(** Two or three devices on which every launch succeeds. *)
Definition two_devices : cuda Z :=
  {| n_devices := 2; launch_ok := fun _ _ _ => true;
     left_by_failure := fun _ _ _ _ => (None, None) |}.

Definition three_devices : cuda Z :=
  {| n_devices := 3; launch_ok := fun _ _ _ => true;
     left_by_failure := fun _ _ _ _ => (None, None) |}.

(** Two devices; every job fails on device 0, before anything is stored. *)
Definition device0_fails : cuda Z :=
  {| n_devices := 2; launch_ok := fun cid _ _ => negb (cid =? 0)%nat;
     left_by_failure := fun _ _ _ _ => (None, None) |}.

(** Two devices; every job fails on device 0, after index 7 was stored in
    the index cell of each of its rows and nothing in the distance cell. *)
Definition device0_fails_late : cuda Z :=
  {| n_devices := 2; launch_ok := fun cid _ _ => negb (cid =? 0)%nat;
     left_by_failure := fun _ _ _ _ => (Some 7, None) |}.

Definition one_obs : list (Z * Z) := [(0, 0)]%Z.
Definition two_obs : list (Z * Z) := [(0, 0); (9, 9)]%Z.
Definition three_obs : list (Z * Z) := [(0, 0); (5, 5); (9, 9)]%Z.
Definition five_obs : list (Z * Z) := [(0, 0); (5, 5); (9, 9); (2, 2); (7, 7)]%Z.

(** References 0 and 2 are the same point: a tie for every observation. *)
Definition three_refs : list (Z * Z) := [(1, 1); (8, 8); (1, 1)]%Z.





(** ** Notions used in the statements *)

(** The job numbers among [a], ..., [a + n - 1] that go to queue [q] when
    jobs are dealt over [G] queues. *)
Definition dealt (G q a n : nat) : list nat :=
  filter (fun j => j mod G = q) (seq a n).

(** What the proofs ask of the comparison of distances: a strict weak
    order, as [<] is on floating-point numbers other than NaN. *)
Record strict_weak_order {D : Type} (ltb : D -> D -> bool) : Prop := {
  swo_irrefl : forall x, ltb x x = false;
  swo_trans : forall x y z, ltb x y = true -> ltb y z = true -> ltb x z = true;
  swo_cotrans : forall x y z, ltb x z = true -> ltb x y = true \/ ltb y z = true
}.

(** The counter of a queue agrees with its items: nothing was taken yet. *)
Definition counted {J : Type} (q : Queue J) : Prop :=
  unfinished_tasks q = length (items q).

(** A job of the call on [obs_points] and [ref_points] whose range lies
    inside the observations. *)
Definition job_ok {coord : Type} (obs_points ref_points : list (@point coord))
    (jb : job coord) : Prop :=
  d_m_obs jb = obs_points /\ d_m_ref jb = ref_points /\
  (0 <= start jb <= end_ jb)%Z /\ (end_ jb <= Z.of_nat (length obs_points))%Z.

(** The output arrays have one cell per observation. *)
Definition mem_ok {coord D : Type} (obs_points : list (@point coord))
    (m : device_mem D) : Prop :=
  length (out_idx m) = length obs_points /\
  length (out_dist m) = length obs_points.

(** Queue [q] of [G] once [n] jobs are dealt. *)
Definition queue_of {coord : Type} (obs_points ref_points : list (@point coord))
    (size batch_size n_jobs : Z) (G n q : nat) : Queue (job coord) :=
  {| items := (fun j => make_job obs_points ref_points size batch_size n_jobs
                          (Z.of_nat j)) <$> dealt G q 0 n;
     unfinished_tasks := length (dealt G q 0 n) |}.

(** The [put] events of [n] jobs dealt over [G] queues. *)
Definition put_events (size batch_size n_jobs : Z) (G n : nat) : list event :=
  (fun j => EvPut (j mod G) (Z.of_nat j * batch_size)
              (if (Z.of_nat j =? n_jobs - 1)%Z then size
               else (Z.of_nat j + 1) * batch_size)) <$> seq 0 n.

(** The round of a multi-device call once the batch size [S], the number
    of jobs [J] and the number of queues [G] are known. *)
Definition round_of {coord D : Type} (haversine : @point coord -> @point coord -> D)
    (ltb : D -> D -> bool) (cu : cuda D) (obs_points ref_points : list (@point coord))
    (S J : Z) (G : nat) : round coord D :=
  let size := Z.of_nat (length obs_points) in
  let queues := queue_of obs_points ref_points size S J G (Z.to_nat J) <$> seq 0 G in
  let m0 := device_arrays (length obs_points) in
  {| r_mem := (start_workers haversine ltb cu 0 queues m0).2;
     r_queues := queues;
     r_workers := (start_workers haversine ltb cu 0 queues m0).1;
     r_log := put_events size S J G (Z.to_nat J)
              ++ (EvStart <$> seq 0 G) ++ (EvJoin <$> seq 0 G) |}.


(** The [put] events of a log: queue and range, in program order. *)
Definition puts (log : list event) : list (nat * (Z * Z)) :=
  omap (fun ev => match ev with
                  | EvPut q s e => Some (q, (s, e))
                  | _ => None
                  end) log.

(** The ranges put on queue [q], in program order. *)
Definition puts_to (q : nat) (log : list event) : list (Z * Z) :=
  omap (fun ev => match ev with
                  | EvPut q' s e => if decide (q' = q) then Some (s, e) else None
                  | _ => None
                  end) log.


(** * Proofs *)

(** ** Arithmetic of the round-robin counter *)

Lemma succ_div_mod (G n : nat) :
  1 <= G ->
  S n / G = n / G + (if decide (S (n mod G) = G) then 1 else 0) /\
  S n mod G = if decide (S (n mod G) = G) then 0 else S (n mod G).
Proof.
  intros HG.
  assert (Hlt : n mod G < G) by (apply Nat.mod_upper_bound; lia).
  pose proof (Nat.div_mod_eq n G) as Hdm.
  case_decide.
  - assert (S n = G * S (n / G) + 0) by nia.
    split; symmetry.
    + apply (Nat.div_unique _ _ _ 0); lia.
    + apply (Nat.mod_unique _ _ (S (n / G))); lia.
  - split; symmetry.
    + apply (Nat.div_unique _ _ _ (S (n mod G))); lia.
    + apply (Nat.mod_unique _ _ (n / G)); lia.
Qed.

Lemma next_qid (G a : nat) :
  1 <= G ->
  (if (G <=? S (a mod G))%nat then 0 else S (a mod G)) = S a mod G.
Proof.
  intros HG.
  assert (Hlt : a mod G < G) by (apply Nat.mod_upper_bound; lia).
  destruct (succ_div_mod G a HG) as [_ ->].
  destruct (Nat.leb_spec G (S (a mod G))); case_decide; lia.
Qed.

Lemma dealt_cons (G q a n : nat) :
  dealt G q a (S n) =
  if decide (a mod G = q) then a :: dealt G q (S a) n else dealt G q (S a) n.
Proof. unfold dealt. simpl seq. rewrite filter_cons. repeat case_decide; done. Qed.

Lemma dealt_snoc (G q n : nat) :
  dealt G q 0 (S n) =
  dealt G q 0 n ++ (if decide (n mod G = q) then [n] else []).
Proof.
  unfold dealt. rewrite seq_S, filter_app. by f_equal.
Qed.

(** Queue [q] of [G] holds [n / G] jobs, and one more when [q < n mod G]. *)
Lemma length_dealt (G q n : nat) :
  1 <= G -> q < G ->
  length (dealt G q 0 n) = n / G + (if decide (q < n mod G) then 1 else 0).
Proof.
  intros HG Hq. induction n as [|n IH].
  - rewrite Nat.Div0.div_0_l, Nat.Div0.mod_0_l. case_decide; [lia | done].
  - rewrite dealt_snoc, length_app, IH.
    destruct (succ_div_mod G n HG) as [-> ->].
    assert (n mod G < G) by (apply Nat.mod_upper_bound; lia).
    repeat case_decide; simpl; lia.
Qed.

(** A queue beyond the number of jobs gets none. *)
Lemma dealt_idle (G q n : nat) : n <= q -> q < G -> dealt G q 0 n = [].
Proof.
  intros Hn Hq. unfold dealt.
  induction n as [|n IH]; [done|].
  rewrite seq_S, filter_app, IH by lia. cbn [app Nat.add].
  rewrite filter_cons, filter_nil. case_decide as Hm; [|done].
  rewrite Nat.mod_small in Hm by lia. lia.
Qed.

Lemma quot_pos_inv (a b : Z) :
  (0 <= a)%Z -> (1 <= Z.quot a b)%Z -> (1 <= b)%Z /\ (1 <= a)%Z.
Proof.
  intros Ha Hq.
  destruct (Z.lt_trichotomy b 0) as [Hb|[->|Hb]].
  - replace b with (- (- b))%Z in Hq by lia.
    rewrite Z.quot_opp_r in Hq by lia.
    pose proof (Z.quot_pos a (- b) Ha ltac:(lia)). lia.
  - assert (Z.quot a 0 = 0)%Z as Hz by (by destruct a). lia.
  - destruct (Z.lt_ge_cases a b) as [Hlt|Hge]; [|lia].
    rewrite Z.quot_small in Hq by lia. lia.
Qed.


Arguments unit_refs : simpl never.
Arguments run_job : simpl never.

(** ** Lists of lists *)

Lemma concat_Permutation {A : Type} (l k : list (list A)) :
  l ≡ₚ k -> concat l ≡ₚ concat k.
Proof.
  induction 1 as [|x l k _ IH|x y l|l k k' _ IH1 _ IH2]; cbn [concat].
  - done.
  - by rewrite IH.
  - rewrite !app_assoc. f_equiv. apply Permutation_app_comm.
  - by rewrite IH1.
Qed.

Lemma elem_of_concat {A : Type} (x : A) (ls : list (list A)) :
  x ∈ concat ls <-> exists l, x ∈ l /\ l ∈ ls.
Proof.
  induction ls as [|l ls IH]; cbn [concat].
  - split; [by intros ?%elem_of_nil | by intros (l & _ & ?%elem_of_nil)].
  - rewrite elem_of_app, IH. split.
    + intros [Hx|(l' & Hx & Hl')]; [exists l | exists l'];
        rewrite elem_of_cons; auto.
    + intros (l' & Hx & [->|Hl']%elem_of_cons); [by left|right; eauto].
Qed.

Lemma concat_fmap_app {A B : Type} (f g : A -> list B) (l : list A) :
  concat ((fun x => f x ++ g x) <$> l) ≡ₚ concat (f <$> l) ++ concat (g <$> l).
Proof.
  induction l as [|x l IH]; [done|].
  rewrite !fmap_cons. cbn [concat]. rewrite IH.
  rewrite <- !app_assoc. f_equiv. rewrite !app_assoc. f_equiv.
  apply Permutation_app_comm.
Qed.

Lemma concat_fmap_fmap {A B C : Type} (f : B -> C) (g : A -> list B) (l : list A) :
  concat ((fun x => f <$> g x) <$> l) = f <$> concat (g <$> l).
Proof.
  induction l as [|x l IH]; [done|].
  rewrite !fmap_cons. cbn [concat]. by rewrite IH, fmap_app.
Qed.

(** Exactly one of the consecutive numbers [a], ..., [a + G - 1] is [x]. *)
Lemma concat_select {B : Type} (x : nat) (v : B) (G : nat) :
  forall a : nat,
  concat ((fun q => if decide (x = q) then [v] else []) <$> seq a G)
  = if decide (a <= x < a + G) then [v] else [].
Proof.
  induction G as [|G IH]; intros a.
  - cbn. case_decide; [lia | done].
  - cbn [seq]. rewrite fmap_cons. cbn [concat]. rewrite IH.
    repeat case_decide; try lia; done.
Qed.

(** Dealing [n] jobs over [G] queues loses and repeats none. *)
Lemma dealt_Permutation (G n : nat) :
  1 <= G ->
  concat ((fun q => dealt G q 0 n) <$> seq 0 G) ≡ₚ seq 0 n.
Proof.
  intros HG. induction n as [|n IH].
  - unfold dealt. cbn [seq]. induction (seq 0 G); [done|].
    rewrite fmap_cons. by cbn [concat].
  - rewrite (list_fmap_ext _ (fun q => dealt G q 0 n
                               ++ (if decide (n mod G = q) then [n] else [])))
      by (intros; apply dealt_snoc).
    rewrite concat_fmap_app, IH, concat_select, seq_S.
    assert (n mod G < G) by (apply Nat.mod_upper_bound; lia).
    case_decide; [done | lia].
Qed.

(** ** The log of the dispatcher *)

Lemma omap_fmap_None {A B C : Type} (f : B -> option C) (g : A -> B) (l : list A) :
  (forall x, f (g x) = None) -> omap f (g <$> l) = [].
Proof.
  intros Hf. induction l as [|x l IH]; [done|].
  rewrite fmap_cons. cbn [omap list_omap]. by rewrite Hf.
Qed.

Lemma puts_put_events (size S J : Z) (G n : nat) :
  puts (put_events size S J G n
        ++ (EvStart <$> seq 0 G) ++ (EvJoin <$> seq 0 G))
  = (fun j => (j mod G, ((Z.of_nat j * S)%Z,
                         if (Z.of_nat j =? J - 1)%Z then size
                         else ((Z.of_nat j + 1) * S)%Z))) <$> seq 0 n.
Proof.
  unfold puts. rewrite !omap_app.
  rewrite (omap_fmap_None _ EvStart), (omap_fmap_None _ EvJoin) by done.
  rewrite !app_nil_r. unfold put_events.
  induction (seq 0 n) as [|j l IH]; [done|].
  rewrite !fmap_cons. cbn [omap list_omap]. by rewrite IH.
Qed.

Lemma puts_to_put_events (size S J : Z) (G n q : nat) :
  puts_to q (put_events size S J G n
             ++ (EvStart <$> seq 0 G) ++ (EvJoin <$> seq 0 G))
  = (fun j => ((Z.of_nat j * S)%Z,
               if (Z.of_nat j =? J - 1)%Z then size
               else ((Z.of_nat j + 1) * S)%Z)) <$> dealt G q 0 n.
Proof.
  unfold puts_to. rewrite !omap_app.
  rewrite (omap_fmap_None _ EvStart), (omap_fmap_None _ EvJoin) by done.
  rewrite !app_nil_r. unfold put_events, dealt.
  induction (seq 0 n) as [|j l IH]; [done|].
  rewrite !fmap_cons, filter_cons. cbn [omap list_omap].
  rewrite IH. by repeat case_decide.
Qed.



Lemma Returns_inj {A : Type} (a b : A) : Returns a = Returns b -> a = b.
Proof. by intros [= ->]. Qed.

Lemma int_truediv_0_r (a : Z) : int_truediv a 0 = Raises ZeroDivisionError.
Proof. done. Qed.

Lemma int_truediv_small (a b : Z) :
  (0 <= a < b)%Z -> int_truediv a b = Returns 0%Z.
Proof.
  intros Hab. unfold int_truediv. destruct (Z.eqb_spec b 0); [lia|].
  by rewrite Z.quot_small.
Qed.


Section Proofs.

Context {coord D : Type}.
Variable haversine : @point coord -> @point coord -> D.
Variable ltb : D -> D -> bool.
Variable cu : cuda D.

(** ** The reduction of the kernels *)

Section Reduction.

Hypothesis Hswo : strict_weak_order ltb.

Local Abbreviation kmin := (keep_min (D:=D) ltb).
Local Abbreviation mred := (min_reduce (D:=D) ltb).

Lemma keep_min_None_r (c : cand) : kmin c None = c.
Proof. by destruct c as [[? ?]|]. Qed.

Lemma keep_min_assoc (a b c : cand) :
  kmin (kmin a b) c = kmin a (kmin b c).
Proof.
  destruct Hswo as [_ Htr Hco].
  destruct a as [[ia da]|], b as [[ib db]|], c as [[ic dc]|]; cbn;
    try done; try (by destruct (ltb db da)); try (by destruct (ltb dc db)).
  - destruct (ltb db da) eqn:Hba, (ltb dc db) eqn:Hcb; cbn;
      rewrite ?Hba, ?Hcb; try done.
    + by rewrite (Htr _ _ _ Hcb Hba).
    + destruct (ltb dc da) eqn:Hca; [|done].
      destruct (Hco _ db _ Hca); congruence.
Qed.

Lemma fold_keep_min (cs : list cand) (acc : cand) :
  fold_left kmin cs acc = kmin acc (mred cs).
Proof.
  unfold min_reduce. revert acc.
  induction cs as [|c cs IH] using rev_ind; intros acc.
  - cbn. by rewrite keep_min_None_r.
  - rewrite !fold_left_app. cbn [fold_left].
    by rewrite IH, keep_min_assoc.
Qed.

Lemma min_reduce_app (cs1 cs2 : list cand) :
  mred (cs1 ++ cs2) = kmin (mred cs1) (mred cs2).
Proof.
  unfold min_reduce at 1. rewrite fold_left_app. apply fold_keep_min.
Qed.

(** Reducing the minima of the parts is reducing the whole. *)
Lemma min_reduce_concat (css : list (list cand)) :
  mred (mred <$> css) = mred (concat css).
Proof.
  induction css as [|cs css IH]; [done|].
  rewrite fmap_cons. cbn [concat].
  change (mred cs :: (mred <$> css))
    with ([mred cs] ++ (mred <$> css)).
  rewrite !min_reduce_app, IH. done.
Qed.

(** A scan keeps the first of the smallest distances: nothing scanned is
    strictly closer, and everything scanned before it is strictly farther. *)
Lemma min_reduce_first (o : @point coord) (l : list (nat * @point coord)) :
  l <> [] ->
  exists p j r,
    l !! p = Some (j, r) /\
    mred (candidates haversine o l) = Some (j, haversine o r) /\
    (forall p' j' r', l !! p' = Some (j', r') ->
       ltb (haversine o r') (haversine o r) = false) /\
    (forall p' j' r', p' < p -> l !! p' = Some (j', r') ->
       ltb (haversine o r) (haversine o r') = true).
Proof.
  destruct Hswo as [Hirr Htr Hco].
  induction l as [|[j1 r1] l IH] using rev_ind; [done|]. intros _.
  unfold candidates. rewrite fmap_app, min_reduce_app. cbn [fmap list_fmap].
  destruct (decide (l = [])) as [->|Hne].
  - exists 0, j1, r1. cbn. split; [done|]. split; [done|]. split.
    + intros [|p'] j' r' Hp'; [|done]. cbn in Hp'.
      injection Hp' as <- <-. apply Hirr.
    + intros p' j' r' Hp'. lia.
  - destruct (IH Hne) as (p & j & r & Hp & Hmin & Hle & Hlt).
    fold (candidates haversine o l). rewrite Hmin.
    assert (Hpl : p < length l) by (by eapply lookup_lt_Some).
    cbn. destruct (ltb (haversine o r1) (haversine o r)) eqn:Hcmp.
    + exists (length l), j1, r1.
      split; [by rewrite lookup_app_r, Nat.sub_diag by lia|].
      split; [done|]. split.
      * intros p' j' r' Hp'.
        destruct (decide (p' < length l)) as [Hin|Hout].
        -- rewrite lookup_app_l in Hp' by done.
           destruct (ltb (haversine o r') (haversine o r1)) eqn:Hc; [|done].
           rewrite <- (Hle p' j' r' Hp'). symmetry. by eapply Htr.
        -- rewrite lookup_app_r in Hp' by lia.
           destruct (p' - length l); [|done]. cbn in Hp'.
           injection Hp' as <- <-. apply Hirr.
      * intros p' j' r' Hp' Hl. rewrite lookup_app_l in Hl by done.
        destruct (Hco _ (haversine o r') _ Hcmp) as [Hc|Hc]; [done|].
        by rewrite (Hle p' j' r' Hl) in Hc.
    + exists p, j, r.
      split; [by rewrite lookup_app_l by done|].
      split; [done|]. split.
      * intros p' j' r' Hp'.
        destruct (decide (p' < length l)) as [Hin|Hout].
        -- rewrite lookup_app_l in Hp' by done. by eapply Hle.
        -- rewrite lookup_app_r in Hp' by lia.
           destruct (p' - length l); [|done]. cbn in Hp'.
           by injection Hp' as <- <-.
      * intros p' j' r' Hp' Hl. rewrite lookup_app_l in Hl by lia.
        by eapply Hlt.
Qed.

(** *** The partition of the references over the units *)

Lemma concat_split_units {A : Type} (B c : nat) :
  forall l : list A, concat (split_units B c l) = take (B * c) l.
Proof.
  induction B as [|B IH]; intros l; [done|].
  cbn [split_units concat]. rewrite IH.
  replace (Datatypes.S B * c) with (c + B * c) by lia.
  by rewrite <- take_take_drop.
Qed.

Lemma chunk_len_enough (B n : nat) : 1 <= B -> n <= B * chunk_len B n.
Proof.
  intros HB. unfold chunk_len.
  pose proof (Nat.div_mod_eq (n + B - 1) B) as Hdm.
  assert (Hlt : (n + B - 1) mod B < B) by (apply Nat.mod_upper_bound; lia).
  lia.
Qed.

Lemma concat_unit_refs (B : nat) (d_ref : list (@point coord)) :
  1 <= B -> concat (unit_refs B d_ref) = imap pair d_ref.
Proof.
  intros HB. unfold unit_refs. rewrite concat_split_units.
  apply take_ge. rewrite length_imap. by apply chunk_len_enough.
Qed.



Lemma candidates_concat (o : @point coord) (chunks : list (list (nat * @point coord))) :
  candidates haversine o (concat chunks)
  = concat (candidates haversine o <$> chunks).
Proof.
  induction chunks as [|ch chunks IH]; [done|].
  cbn [concat]. unfold candidates in *. rewrite fmap_app, IH. done.
Qed.

(** The two kernels find what a single scan over all references finds. *)
Lemma reduce_pair_nearest (B : nat) (d_ref : list (@point coord)) (o : @point coord) :
  1 <= B ->
  reduce_pair haversine ltb B d_ref o = nearest haversine ltb d_ref o.
Proof.
  intros HB. unfold reduce_pair, nearest.
  rewrite (list_fmap_compose (candidates haversine o) mred).
  rewrite min_reduce_concat, <- candidates_concat, concat_unit_refs by done.
  done.
Qed.



Lemma nearest_first (d_ref : list (@point coord)) (o : @point coord) :
  d_ref <> [] ->
  exists j r,
    d_ref !! j = Some r /\
    nearest haversine ltb d_ref o = Some (j, haversine o r) /\
    (forall k r', d_ref !! k = Some r' ->
       ltb (haversine o r') (haversine o r) = false) /\
    (forall k r', k < j -> d_ref !! k = Some r' ->
       ltb (haversine o r) (haversine o r') = true).
Proof.
  intros Hne.
  destruct (min_reduce_first o (imap pair d_ref)) as (p & j & r & Hp & Hmin & Hle & Hlt).
  { intros Heq. apply (f_equal length) in Heq. rewrite length_imap in Heq.
    by destruct d_ref. }
  rewrite list_lookup_imap in Hp.
  destruct (d_ref !! p) as [r0|] eqn:Hr0; [|done]. cbn in Hp.
  injection Hp as <- <-.
  exists p, r0. split; [done|]. split; [done|]. split.
  - intros k r' Hk. apply (Hle k k r'). by rewrite list_lookup_imap, Hk.
  - intros k r' Hkp Hk. apply (Hlt k k r' Hkp). by rewrite list_lookup_imap, Hk.
Qed.

End Reduction.

(** ** The loop that deals the jobs *)

Section Enqueue.

Variables (obs_points ref_points : list (@point coord)).
Variables (size batch_size n_jobs : Z).

Let mk (j : nat) : job coord :=
  make_job obs_points ref_points size batch_size n_jobs (Z.of_nat j).

Lemma enqueue_jobs_spec (n : nat) :
  forall (a qid : nat) (queues : list (Queue (job coord))) (log : list event),
  1 <= length queues ->
  (if (length queues <=? qid)%nat then 0 else qid) = a mod length queues ->
  exists queues',
    enqueue_jobs obs_points ref_points size batch_size n_jobs
      (Z.of_nat <$> seq a n) qid queues log
    = Returns (queues',
               log ++ ((fun j => EvPut (j mod length queues) (start (mk j)) (end_ (mk j)))
                       <$> seq a n)) /\
    length queues' = length queues /\
    forall q Q, queues !! q = Some Q ->
      queues' !! q =
      Some {| items := items Q ++ (mk <$> dealt (length queues) q a n);
              unfinished_tasks :=
                unfinished_tasks Q + length (dealt (length queues) q a n) |}.
Proof.
  induction n as [|n IH]; intros a qid queues log HG Hqid.
  - exists queues. simpl. rewrite !app_nil_r. split; [done|]. split; [done|].
    intros q Q HQ. unfold dealt. simpl. rewrite app_nil_r, Nat.add_0_r.
    rewrite HQ. by destruct Q.
  - simpl seq. rewrite fmap_cons. simpl enqueue_jobs. rewrite Hqid.
    assert (Hlt : a mod length queues < length queues)
      by (apply Nat.mod_upper_bound; lia).
    destruct (lookup_lt_is_Some_2 queues _ Hlt) as [Q0 HQ0]. rewrite HQ0.
    set (queues1 := <[a mod length queues := put Q0 _]> queues).
    assert (Hlen1 : length queues1 = length queues) by apply length_insert.
    destruct (IH (S a) (S (a mod length queues)) queues1
                (log ++ [EvPut (a mod length queues) (start (mk a)) (end_ (mk a))]))
      as (queues' & Hrun & Hlen & Hq).
    { lia. }
    { rewrite Hlen1. by apply next_qid. }
    exists queues'. split; [|split].
    + rewrite Hlen1, <- app_assoc in Hrun. exact Hrun.
    + lia.
    + intros q Q HQ. rewrite dealt_cons.
      destruct (decide (a mod length queues = q)) as [<-|Hne].
      * assert (Q = Q0) as -> by congruence.
        rewrite (Hq _ (put Q0 (mk a))).
        2:{ unfold queues1. by rewrite list_lookup_insert_eq. }
        rewrite Hlen1. simpl. rewrite <- app_assoc. do 2 f_equal. lia.
      * rewrite (Hq _ Q).
        2:{ unfold queues1. by rewrite list_lookup_insert_ne. }
        by rewrite Hlen1.
Qed.

Lemma dealt_0 (G q a : nat) : dealt G q a 0 = [].
Proof. done. Qed.

Lemma enqueue_jobs_empty (G n : nat) :
  n = 0 \/ 1 <= G ->
  enqueue_jobs obs_points ref_points size batch_size n_jobs
    (Z.of_nat <$> seq 0 n) 0 (replicate G Queue_new) []
  = Returns (queue_of obs_points ref_points size batch_size n_jobs G n <$> seq 0 G,
             put_events size batch_size n_jobs G n).
Proof.
  intros [->|HG].
  - unfold put_events. cbn [seq]. rewrite !fmap_nil. cbn [enqueue_jobs].
    do 2 f_equal. apply list_eq. intros q.
    rewrite list_lookup_fmap.
    destruct (decide (q < G)) as [Hq|Hq].
    + rewrite (lookup_replicate_2 G Queue_new q Hq).
      by rewrite (lookup_seq_lt 0 G q Hq).
    + rewrite lookup_seq_ge by lia. apply lookup_replicate_None. lia.
  - destruct (enqueue_jobs_spec n 0 0 (replicate G Queue_new) []) as (qs & Hrun & Hlen & Hq).
    { rewrite length_replicate. lia. }
    { rewrite length_replicate, Nat.Div0.mod_0_l.
      by destruct (Nat.leb_spec G 0). }
    rewrite length_replicate in *. rewrite Hrun. do 2 f_equal.
    apply list_eq. intros q. rewrite list_lookup_fmap.
    destruct (decide (q < G)) as [Hlt|Hge].
    + rewrite (Hq q Queue_new) by by apply lookup_replicate_2.
      by rewrite (lookup_seq_lt 0 G q Hlt).
    + rewrite lookup_seq_ge by lia. apply lookup_ge_None. lia.
Qed.

Lemma enqueue_jobs_no_queue (n : nat) :
  enqueue_jobs obs_points ref_points size batch_size n_jobs
    (Z.of_nat <$> seq 0 (S n)) 0 [] [] = Raises IndexError.
Proof. done. Qed.

Lemma queue_of_counted (G n q : nat) :
  counted (queue_of obs_points ref_points size batch_size n_jobs G n q).
Proof. unfold counted, queue_of. cbn. by rewrite length_fmap. Qed.

End Enqueue.

(** ** Arrays and views *)

Lemma slice_bound_le (len : nat) (i : Z) : slice_bound len i <= len.
Proof. unfold slice_bound. destruct (Z.ltb_spec i 0); lia. Qed.

Lemma slice_bound_inside (len : nat) (i : Z) :
  (0 <= i <= Z.of_nat len)%Z -> slice_bound len i = Z.to_nat i.
Proof. intros Hi. unfold slice_bound. destruct (Z.ltb_spec i 0); lia. Qed.

Lemma length_write_view {V : Type} (lo len : nat) (vals buf : list (option V)) :
  lo + len <= length buf ->
  length (write_view lo len vals buf) = length buf.
Proof.
  intros Hle. unfold write_view.
  rewrite !length_app, length_drop, !length_take. lia.
Qed.

Lemma lookup_write_view {V : Type} (lo len : nat) (vals buf : list (option V)) (i : nat) :
  lo + len <= length buf ->
  write_view lo len vals buf !! i =
  if decide (lo <= i < lo + length (take len vals)) then vals !! (i - lo)
  else buf !! i.
Proof.
  intros Hle. unfold write_view.
  assert (Hnew : length (take len vals) <= len) by (rewrite length_take; lia).
  assert (Hlo : length (take lo buf) = lo) by (apply length_take_le; lia).
  case_decide as Hi.
  - rewrite lookup_app_r by lia. rewrite Hlo.
    rewrite lookup_app_l by lia. apply lookup_take_lt. lia.
  - destruct (decide (i < lo)).
    + rewrite lookup_app_l by lia. by apply lookup_take_lt.
    + rewrite lookup_app_r by lia. rewrite Hlo.
      rewrite lookup_app_r by lia. rewrite lookup_drop. f_equal. lia.
Qed.

Lemma length_slice {A : Type} (l : list A) (s e : Z) :
  (0 <= s <= e)%Z -> (e <= Z.of_nat (length l))%Z ->
  length (slice l s e) = Z.to_nat (e - s).
Proof.
  intros Hs He. unfold slice.
  rewrite !slice_bound_inside by lia.
  rewrite length_take, length_drop. lia.
Qed.

Lemma lookup_slice {A : Type} (l : list A) (s e : Z) (k : nat) :
  (0 <= s <= e)%Z -> (e <= Z.of_nat (length l))%Z ->
  k < Z.to_nat (e - s) ->
  slice l s e !! k = l !! (Z.to_nat s + k).
Proof.
  intros Hs He Hk. unfold slice.
  rewrite !slice_bound_inside by lia.
  rewrite lookup_take_lt by lia. apply lookup_drop.
Qed.

(** A view [a[s:e]] never reaches outside the cells [s], ..., [e - 1]. *)
Lemma slice_view_within (len : nat) (s e : Z) (i : nat) :
  (0 <= s)%Z -> (0 <= e)%Z ->
  (slice_view len s e).1 <= i < (slice_view len s e).1 + (slice_view len s e).2 ->
  (s <= Z.of_nat i < e)%Z.
Proof.
  unfold slice_view, slice_bound. simpl. intros Hs He.
  destruct (Z.ltb_spec s 0); [lia|]. destruct (Z.ltb_spec e 0); lia.
Qed.

Lemma slice_view_fits (len : nat) (s e : Z) :
  (slice_view len s e).1 + (slice_view len s e).2 <= len.
Proof.
  unfold slice_view. simpl.
  pose proof (slice_bound_le len s). pose proof (slice_bound_le len e). lia.
Qed.

(** Storing the rows computed from [obs[s:e]] through the view [buf[s:e]]
    of an array as long as [obs]. *)
Lemma lookup_write_slice {A V : Type} (f : A -> option V) (obs : list A)
    (buf : list (option V)) (s e : Z) (i : nat) :
  length buf = length obs ->
  (0 <= s <= e)%Z -> (e <= Z.of_nat (length obs))%Z ->
  write_view (slice_view (length buf) s e).1 (slice_view (length buf) s e).2
    (f <$> slice obs s e) buf !! i
  = if decide (s <= Z.of_nat i < e)%Z then f <$> obs !! i else buf !! i.
Proof.
  intros Hlen Hs He.
  rewrite lookup_write_view by apply slice_view_fits.
  unfold slice_view. simpl. rewrite Hlen.
  rewrite !slice_bound_inside by lia.
  rewrite length_take, length_fmap, length_slice by lia.
  repeat case_decide; try lia; [|done].
  rewrite list_lookup_fmap, lookup_slice by lia.
  do 2 f_equal. lia.
Qed.

Lemma kernels_per_observation (B : nat) (d_ref d_obs : list (@point coord)) :
  global_min_reduce ltb (block_min_reduce haversine ltb B d_ref d_obs)
  = reduce_pair haversine ltb B d_ref <$> d_obs.
Proof.
  unfold global_min_reduce, block_min_reduce, reduce_pair.
  by rewrite <- list_fmap_compose.
Qed.

(** ** One job *)

Lemma length_run_job (jb : job coord) (m : device_mem D) :
  length (out_idx (run_job haversine ltb jb m)) = length (out_idx m) /\
  length (out_dist (run_job haversine ltb jb m)) = length (out_dist m).
Proof.
  unfold run_job, launch. simpl.
  split; apply length_write_view, slice_view_fits.
Qed.



(** ** One failed job *)

Lemma length_spoil {V : Type} (lo len : nat) (stored : nat -> option V)
    (buf : list (option V)) :
  length (spoil lo len stored buf) = length buf.
Proof. apply length_imap. Qed.

Lemma lookup_spoil {V : Type} (lo len : nat) (stored : nat -> option V)
    (buf : list (option V)) (i : nat) :
  spoil lo len stored buf !! i
  = (fun old => if decide (lo <= i < lo + len)
                then match stored (i - lo) with Some v => Some v | None => old end
                else old) <$> buf !! i.
Proof. unfold spoil. by rewrite list_lookup_imap. Qed.

Lemma length_fail_job (cid : nat) (jb : job coord) (m : device_mem D) :
  length (out_idx (fail_job cu cid jb m)) = length (out_idx m) /\
  length (out_dist (fail_job cu cid jb m)) = length (out_dist m).
Proof. unfold fail_job. cbn [out_idx out_dist]. by rewrite !length_spoil. Qed.

(** A failed job too leaves the cells outside its views as they were. *)
Lemma fail_job_frame (cid : nat) (jb : job coord) (m : device_mem D) (i : nat) :
  (0 <= start jb)%Z -> (0 <= end_ jb)%Z -> ~ covers jb i ->
  out_idx (fail_job cu cid jb m) !! i = out_idx m !! i /\
  out_dist (fail_job cu cid jb m) !! i = out_dist m !! i.
Proof.
  intros Hs He Hi. unfold fail_job. cbn [out_idx out_dist].
  rewrite !lookup_spoil.
  split; case_decide as Hin; try (by destruct (_ !! i)); exfalso; apply Hi.
  - by apply (slice_view_within (length (out_idx m)) _ _ i Hs He).
  - by apply (slice_view_within (length (out_dist m)) _ _ i Hs He).
Qed.


Section ValidJob.

Variables (obs_points ref_points : list (@point coord)).

Local Abbreviation job_ok := (job_ok obs_points ref_points).
Local Abbreviation mem_ok := (mem_ok obs_points).

Lemma run_job_mem_ok (jb : job coord) (m : device_mem D) :
  mem_ok m -> mem_ok (run_job haversine ltb jb m).
Proof.
  intros [H1 H2]. destruct (length_run_job jb m) as [H3 H4].
  split; congruence.
Qed.

Lemma run_job_cells (jb : job coord) (m : device_mem D) (i : nat) :
  job_ok jb -> mem_ok m ->
  out_idx (run_job haversine ltb jb m) !! i
  = (if decide (covers jb i)
     then (fun o => cand_idx (reduce_pair haversine ltb 32 ref_points o)) <$> obs_points !! i
     else out_idx m !! i) /\
  out_dist (run_job haversine ltb jb m) !! i
  = (if decide (covers jb i)
     then (fun o => cand_dist (reduce_pair haversine ltb 32 ref_points o)) <$> obs_points !! i
     else out_dist m !! i) /\
  written (run_job haversine ltb jb m) = written m ++ cells jb.
Proof.
  intros (Hobs & Href & Hs & He) [Hli Hld].
  unfold run_job, launch. cbn [out_idx out_dist written].
  rewrite kernels_per_observation, Hobs, Href.
  rewrite <- !list_fmap_compose.
  rewrite !lookup_write_slice by (congruence || lia).
  unfold covers. split; [|split].
  - repeat case_decide; try (exfalso; lia); reflexivity.
  - repeat case_decide; try (exfalso; lia); reflexivity.
  - f_equal. unfold cells, slice_view. cbn [fst snd].
    rewrite Hli, !slice_bound_inside by lia.
    rewrite length_take, length_fmap, length_slice by lia.
    f_equal. lia.
Qed.

Lemma fail_job_mem_ok (cid : nat) (jb : job coord) (m : device_mem D) :
  mem_ok m -> mem_ok (fail_job cu cid jb m).
Proof.
  intros [H1 H2]. destruct (length_fail_job cid jb m) as [H3 H4].
  split; congruence.
Qed.

Lemma fail_job_logged (cid : nat) (jb : job coord) (m : device_mem D) :
  job_ok jb -> mem_ok m ->
  written (fail_job cu cid jb m) = written m ++ logged cu (Failed cid jb).
Proof.
  intros (_ & _ & Hs & He) [Hli _].
  assert (Hview : slice_view (length (out_idx m)) (start jb) (end_ jb)
                  = (Z.to_nat (start jb), Z.to_nat (end_ jb - start jb))).
  { unfold slice_view. rewrite Hli, !slice_bound_inside by lia. f_equal. lia. }
  unfold fail_job, logged, cells. rewrite Hview. reflexivity.
Qed.

Lemma run_step_mem_ok (st : step coord) (m : device_mem D) :
  mem_ok m -> mem_ok (run_step haversine ltb cu m st).
Proof. destruct st; [apply run_job_mem_ok | apply fail_job_mem_ok]. Qed.

(** The iterations of workers, completed or failed: a cell outside the
    failed jobs holds the result of the kernels when a completed job covers
    it and its former content otherwise. *)
Lemma run_steps_cells (sts : list (step coord)) :
  forall (m : device_mem D) (i : nat),
  Forall (fun st => job_ok (step_job st)) sts -> mem_ok m ->
  let m' := fold_left (run_step haversine ltb cu) sts m in
  mem_ok m' /\
  (~ Exists (fun jb => covers jb i) (failed_jobs sts) ->
   out_idx m' !! i
   = (if decide (Exists (fun jb => covers jb i) (done_jobs sts))
      then (fun o => cand_idx (reduce_pair haversine ltb 32 ref_points o))
             <$> obs_points !! i
      else out_idx m !! i) /\
   out_dist m' !! i
   = (if decide (Exists (fun jb => covers jb i) (done_jobs sts))
      then (fun o => cand_dist (reduce_pair haversine ltb 32 ref_points o))
             <$> obs_points !! i
      else out_dist m !! i)) /\
  written m' = written m ++ concat (logged cu <$> sts).
Proof.
  induction sts as [|st sts IH]; intros m i Hsts Hm m'; subst m'; cbn [fold_left].
  - rewrite fmap_nil. cbn [concat]. rewrite app_nil_r.
    split; [done|]. split; [|done]. intros _.
    split; (case_decide as HE; [by apply Exists_nil in HE | reflexivity]).
  - apply Forall_cons in Hsts as [Hst Hsts].
    destruct (IH (run_step haversine ltb cu m st) i Hsts (run_step_mem_ok st m Hm))
      as (Hok & Hcell & Hw).
    split; [done|]. rewrite Hw, fmap_cons. cbn [concat]. rewrite app_assoc.
    destruct st as [jb|cid jb]; cbn [run_step step_job] in *.
    + destruct (run_job_cells jb m i Hst Hm) as (Hi1 & Hd1 & Hw1).
      split; [|by rewrite Hw1].
      intros Hnf. destruct (Hcell Hnf) as [Hi Hd].
      rewrite Hi, Hd, Hi1, Hd1.
      change (done_jobs (Done jb :: sts)) with (jb :: done_jobs sts).
      split; repeat case_decide; try reflexivity;
        exfalso; rewrite Exists_cons in *; tauto.
    + split; [|by rewrite (fail_job_logged cid jb m Hst Hm)].
      change (failed_jobs (Failed cid jb :: sts)) with (jb :: failed_jobs sts).
      change (done_jobs (Failed cid jb :: sts)) with (done_jobs sts).
      intros Hnf. rewrite Exists_cons in Hnf.
      destruct Hcell as [Hi Hd]; [tauto|].
      destruct Hst as (_ & _ & Hs & He).
      destruct (fail_job_frame cid jb m i) as [Hi1 Hd1]; [lia | lia | tauto |].
      by rewrite Hi, Hd, Hi1, Hd1.
Qed.

End ValidJob.

(** ** The worker thread *)

Local Abbreviation run_jobs := (fold_left (fun m jb => run_job haversine ltb jb m)).
Local Abbreviation run_steps := (fold_left (run_step haversine ltb cu)).

(** A worker whose queue counts exactly its items completes the jobs before
    the first failing launch, and never waits on an empty queue. *)
Lemma worker_loop_spec (cid : nat) (its : list (job coord)) :
  forall (k : nat) (m : device_mem D),
  worker_loop haversine ltb cu cid its (length its) k m =
  {| w_end := if decide (length (served cu cid its) = length its)
              then Returned else Died CudaError;
     w_queue := {| items := drop (S (length (served cu cid its))) its;
                   unfinished_tasks := length its - length (served cu cid its) |};
     w_mem := run_steps (steps cu cid its) m;
     w_iters := k + length (served cu cid its) |}.
Proof.
  induction its as [|jb rest IH]; intros k m.
  - cbn. by rewrite Nat.add_0_r.
  - cbn [length worker_loop served steps].
    destruct (launch_ok cu cid (start jb) (end_ jb)).
    + rewrite IH. cbn [length fold_left drop].
      f_equal; [|lia].
      repeat case_decide; (reflexivity || lia).
    + cbn [length fold_left drop]. rewrite Nat.add_0_r. f_equal.
Qed.

Lemma length_served (cid : nat) (its : list (job coord)) :
  length (served cu cid its) <= length its.
Proof.
  induction its as [|jb rest IH]; [done|].
  cbn [served]. destruct (launch_ok _ _ _ _); cbn [length]; lia.
Qed.

Lemma served_all_ok (cid : nat) (its : list (job coord)) :
  Forall (fun jb => launch_ok cu cid (start jb) (end_ jb) = true) its ->
  served cu cid its = its.
Proof.
  induction 1 as [|jb rest Hjb _ IH]; [done|].
  cbn [served]. by rewrite Hjb, IH.
Qed.

Lemma _get_nearest_multi_spec (q : Queue (job coord)) (cid : nat) (m : device_mem D) :
  counted q ->
  let sv := if (cid <? n_devices cu)%nat then served cu cid (items q) else [] in
  w_mem (_get_nearest_multi haversine ltb cu q cid m)
  = run_steps (if (cid <? n_devices cu)%nat then steps cu cid (items q) else []) m /\
  w_iters (_get_nearest_multi haversine ltb cu q cid m) = length sv /\
  w_queue (_get_nearest_multi haversine ltb cu q cid m)
  = (if (cid <? n_devices cu)%nat
     then {| items := drop (S (length sv)) (items q);
             unfinished_tasks := length (items q) - length sv |}
     else q) /\
  w_end (_get_nearest_multi haversine ltb cu q cid m)
  = (if decide (cid < n_devices cu /\
                length (served cu cid (items q)) = length (items q))
     then Returned else Died CudaError).
Proof.
  intros Hq sv. subst sv. unfold _get_nearest_multi.
  destruct (Nat.ltb_spec cid (n_devices cu)) as [Hc|Hc].
  - rewrite Hq, worker_loop_spec. cbn [w_mem w_iters w_end w_queue].
    split; [done|]. split; [done|]. split; [done|].
    repeat case_decide; (done || tauto).
  - cbn [w_mem w_iters w_end w_queue fold_left length].
    split; [done|]. split; [done|]. split; [done|].
    case_decide; [lia|done].
Qed.

Lemma start_workers_spec (queues : list (Queue (job coord))) :
  forall (qid : nat) (m : device_mem D),
  Forall counted queues ->
  (start_workers haversine ltb cu qid queues m).2
  = run_steps (steps_all cu qid queues) m /\
  length (start_workers haversine ltb cu qid queues m).1 = length queues /\
  existsb (fun w => is_blocked (w_end w))
    (start_workers haversine ltb cu qid queues m).1 = false /\
  forall i w q,
    (start_workers haversine ltb cu qid queues m).1 !! i = Some w ->
    queues !! i = Some q ->
    w_iters w = length (if (qid + i <? n_devices cu)%nat
                        then served cu (qid + i) (items q) else []) /\
    w_queue w
    = (if (qid + i <? n_devices cu)%nat
       then {| items := drop (S (length (served cu (qid + i) (items q)))) (items q);
               unfinished_tasks :=
                 length (items q) - length (served cu (qid + i) (items q)) |}
       else q) /\
    w_end w
    = (if decide (qid + i < n_devices cu /\
                  length (served cu (qid + i) (items q)) = length (items q))
       then Returned else Died CudaError).
Proof.
  induction queues as [|q qs IH]; intros qid m Hqs.
  - cbn. repeat split; try done.
  - apply Forall_cons in Hqs as [Hq Hqs].
    cbn [start_workers steps_all fst snd length existsb].
    destruct (_get_nearest_multi_spec q qid m Hq) as (Hm & Hit & Hwq & Hend).
    destruct (IH (S qid) (w_mem (_get_nearest_multi haversine ltb cu q qid m)) Hqs)
      as (Hm' & Hlen & Hnb' & Hws).
    rewrite Hm', Hlen, Hnb'.
    split; [by rewrite Hm, fold_left_app|]. split; [done|]. split.
    + rewrite Hend. by case_decide.
    + intros [|i] w q' Hw Hq'; cbn in Hw, Hq'.
      * injection Hw as <-. injection Hq' as <-. rewrite Nat.add_0_r.
        split; [done|]. split; [|done].
        rewrite Hwq. by destruct (qid <? n_devices cu)%nat.
      * rewrite <- Nat.add_succ_comm. by apply Hws.
Qed.

Lemma served_unserved (cid : nat) (its : list (job coord)) :
  its = served cu cid its ++ unserved cu cid its.
Proof.
  induction its as [|jb its IH]; [done|].
  cbn [served unserved]. destruct (launch_ok _ _ _ _); [|done].
  cbn. by rewrite <- IH.
Qed.

Lemma unserved_head (cid : nat) (its : list (job coord)) (jb : job coord)
    (rest : list (job coord)) :
  unserved cu cid its = jb :: rest ->
  launch_ok cu cid (start jb) (end_ jb) = false.
Proof.
  induction its as [|jb' its IH]; [done|].
  cbn [unserved].
  destruct (launch_ok cu cid (start jb') (end_ jb')) eqn:Hok; [exact IH|].
  by intros [= <- _].
Qed.

Lemma served_all_unserved_all (queues : list (Queue (job coord))) :
  forall qid : nat,
  concat (items <$> queues)
  ≡ₚ served_all cu qid queues ++ unserved_all cu qid queues.
Proof.
  induction queues as [|q qs IH]; intros qid; [done|].
  rewrite fmap_cons. cbn [concat served_all unserved_all].
  rewrite (IH (Datatypes.S qid)).
  destruct (qid <? n_devices cu)%nat.
  - rewrite (served_unserved qid (items q)) at 1.
    rewrite <- !app_assoc. f_equiv. rewrite !app_assoc. f_equiv.
    apply Permutation_app_comm.
  - cbn. rewrite !app_assoc. f_equiv. apply Permutation_app_comm.
Qed.

(** When every device exists and every launch succeeds, every job is
    completed. *)
(** *** Completed, failed and never started *)

Lemma done_jobs_steps (cid : nat) (its : list (job coord)) :
  done_jobs (steps cu cid its) = served cu cid its.
Proof.
  induction its as [|jb its IH]; [done|].
  cbn [steps served]. destruct (launch_ok _ _ _ _); [|done].
  change (done_jobs (Done jb :: steps cu cid its))
    with (jb :: done_jobs (steps cu cid its)).
  by rewrite IH.
Qed.

Lemma failed_jobs_steps (cid : nat) (its : list (job coord)) :
  failed_jobs (steps cu cid its) = failed cu cid its.
Proof.
  unfold failed. induction its as [|jb its IH]; [done|].
  cbn [steps unserved]. destruct (launch_ok _ _ _ _); [|done].
  change (failed_jobs (Done jb :: steps cu cid its))
    with (failed_jobs (steps cu cid its)).
  by rewrite IH.
Qed.

Lemma done_jobs_steps_all (queues : list (Queue (job coord))) :
  forall qid : nat, done_jobs (steps_all cu qid queues) = served_all cu qid queues.
Proof.
  induction queues as [|q qs IH]; intros qid; [done|].
  cbn [steps_all served_all]. unfold done_jobs in *. rewrite omap_app, IH.
  f_equal. destruct (qid <? n_devices cu)%nat; [apply done_jobs_steps | done].
Qed.

Lemma failed_jobs_steps_all (queues : list (Queue (job coord))) :
  forall qid : nat, failed_jobs (steps_all cu qid queues) = failed_all cu qid queues.
Proof.
  induction queues as [|q qs IH]; intros qid; [done|].
  cbn [steps_all failed_all]. unfold failed_jobs in *. rewrite omap_app, IH.
  f_equal. destruct (qid <? n_devices cu)%nat; [apply failed_jobs_steps | done].
Qed.

Lemma step_job_steps (cid : nat) (its : list (job coord)) (st : step coord) :
  st ∈ steps cu cid its -> step_job st ∈ its.
Proof.
  induction its as [|jb its IH]; [by intros ?%elem_of_nil|].
  cbn [steps]. destruct (launch_ok _ _ _ _).
  - intros [->|Hin]%elem_of_cons; [left | right; by apply IH].
  - intros ->%list_elem_of_singleton. left.
Qed.

Lemma step_job_steps_all (queues : list (Queue (job coord))) :
  forall (qid : nat) (st : step coord),
  st ∈ steps_all cu qid queues -> step_job st ∈ concat (items <$> queues).
Proof.
  induction queues as [|q qs IH]; intros qid st; [by intros ?%elem_of_nil|].
  cbn [steps_all]. rewrite fmap_cons. cbn [concat].
  intros [Hin|Hin]%elem_of_app; apply elem_of_app.
  - left. destruct (qid <? n_devices cu)%nat; [|by apply elem_of_nil in Hin].
    by apply (step_job_steps qid).
  - right. by apply (IH (S qid)).
Qed.

Lemma unserved_all_split (queues : list (Queue (job coord))) :
  forall qid : nat,
  unserved_all cu qid queues
  ≡ₚ failed_all cu qid queues ++ unstarted_all cu qid queues.
Proof.
  induction queues as [|q qs IH]; intros qid; [done|].
  cbn [unserved_all failed_all unstarted_all]. rewrite (IH (S qid)).
  destruct (qid <? n_devices cu)%nat.
  - rewrite <- (take_drop 1 (unserved cu qid (items q))) at 1.
    fold (failed cu qid (items q)) (unstarted cu qid (items q)).
    rewrite <- !app_assoc. f_equiv. rewrite !app_assoc. f_equiv.
    apply Permutation_app_comm.
  - cbn [app]. rewrite !app_assoc. f_equiv. apply Permutation_app_comm.
Qed.

Lemma failed_all_ok (queues : list (Queue (job coord))) (qid : nat) :
  (forall cid s e, launch_ok cu cid s e = true) ->
  failed_all cu qid queues = [] /\
  steps_all cu qid queues = (fun jb => Done jb) <$> served_all cu qid queues.
Proof.
  intros Hok.
  assert (Hone : forall cid (its : list (job coord)),
            failed cu cid its = [] /\
            steps cu cid its = (fun jb => Done jb) <$> served cu cid its).
  { intros cid its. unfold failed. induction its as [|jb its [IH1 IH2]]; [done|].
    cbn [steps served unserved]. rewrite Hok. split; [done|].
    by rewrite IH2. }
  revert qid. induction queues as [|q qs IH]; intros qid; [done|].
  cbn [failed_all steps_all served_all]. destruct (IH (S qid)) as [-> ->].
  rewrite fmap_app.
  destruct (qid <? n_devices cu)%nat; [|done].
  by destruct (Hone qid (items q)) as [-> ->].
Qed.

Lemma served_all_complete (queues : list (Queue (job coord))) :
  forall qid : nat,
  qid + length queues <= n_devices cu ->
  (forall cid s e, launch_ok cu cid s e = true) ->
  served_all cu qid queues = concat (items <$> queues)
  /\ unserved_all cu qid queues = [].
Proof.
  induction queues as [|q qs IH]; intros qid Hdev Hok; [done|].
  rewrite fmap_cons. cbn [concat served_all unserved_all length] in *.
  destruct (IH (Datatypes.S qid) ltac:(lia) Hok) as [-> ->].
  destruct (Nat.ltb_spec qid (n_devices cu)); [|lia].
  pose proof (served_unserved qid (items q)) as Hsu.
  rewrite served_all_ok in *
    by (apply Forall_forall; intros; apply Hok).
  split; [done|]. rewrite app_nil_r.
  apply (f_equal length) in Hsu. rewrite length_app in Hsu.
  destruct (unserved cu qid (items q)); [done|cbn in Hsu; lia].
Qed.

(** ** The ranges of the jobs *)

Section Ranges.

Variables (obs_points ref_points : list (@point coord)).
Variable S : Z.

Let N : Z := Z.of_nat (length obs_points).
Let J : Z := Z.quot N (Z.min S N).
Let mk (j : nat) : job coord :=
  make_job obs_points ref_points N S J (Z.of_nat j).

Hypothesis HN : (1 <= N)%Z.
Hypothesis HS : (1 <= S)%Z.

(** At least one job is built, and the last one starts inside the
    observations. *)
Lemma n_jobs_bounds : (1 <= J)%Z /\ (0 <= (J - 1) * S < N)%Z.
Proof.
  unfold J. destruct (Z.min_spec S N) as [[Hlt ->]|[Hle ->]].
  - pose proof (Z.quot_rem' N S) as Hqr.
    pose proof (Z.rem_bound_pos N S ltac:(lia) ltac:(lia)) as Hr.
    assert (0 < Z.quot N S)%Z as Hq by (apply Z.quot_str_pos; lia).
    generalize dependent (Z.quot N S). generalize dependent (Z.rem N S).
    intros r Hr q Hqr Hq. split; [lia|].
    replace ((q - 1) * S)%Z with (S * q - S)%Z by ring. nia.
  - rewrite Z.quot_same by lia. lia.
Qed.

Lemma int_truediv_n_jobs : int_truediv N (Z.min S N) = Returns J.
Proof.
  unfold int_truediv. destruct (Z.eqb_spec (Z.min S N) 0); [lia | done].
Qed.

Lemma mk_range (j : nat) :
  j < Z.to_nat J ->
  start (mk j) = (Z.of_nat j * S)%Z /\
  end_ (mk j) = (if decide (j + 1 = Z.to_nat J) then N
                 else ((Z.of_nat j + 1) * S)%Z) /\
  (0 <= start (mk j) < end_ (mk j))%Z /\ (end_ (mk j) <= N)%Z.
Proof.
  intros Hj. destruct n_jobs_bounds as [HJ HK].
  cbn [mk make_job start end_].
  destruct (Z.eqb_spec (Z.of_nat j) (J - 1)); case_decide; try lia;
    (split; [done|]); (split; [done|]); nia.
Qed.

Lemma mk_job_ok (j : nat) :
  j < Z.to_nat J -> job_ok obs_points ref_points (mk j).
Proof.
  intros Hj. destruct (mk_range j Hj) as (_ & _ & Hlt & Hle).
  repeat split; (done || lia).
Qed.

Lemma cells_mk (j : nat) :
  j < Z.to_nat J ->
  cells (mk j) =
  seq (j * Z.to_nat S)
      (if decide (j + 1 = Z.to_nat J) then length obs_points - j * Z.to_nat S
       else Z.to_nat S).
Proof.
  intros Hj. destruct (mk_range j Hj) as (Hs & He & Hlt & Hle).
  unfold cells. rewrite Hs, He. f_equal; [nia|].
  case_decide; [|nia]. unfold N. nia.
Qed.

(** In the order of their creation, the ranges of the first [k] jobs make
    up the cells below [k * S]. *)
Lemma cells_prefix (k : nat) :
  k < Z.to_nat J ->
  concat (cells <$> (mk <$> seq 0 k)) = seq 0 (k * Z.to_nat S).
Proof.
  induction k as [|k IH]; intros Hk; [done|].
  rewrite seq_S, !fmap_app, concat_app, IH by lia.
  cbn [fmap list_fmap concat]. rewrite app_nil_r, cells_mk by lia.
  case_decide; [lia|].
  rewrite <- seq_app. f_equal. lia.
Qed.

(** The ranges of all the jobs make up the cells [0], ..., [N - 1]. *)
Lemma cells_all :
  concat (cells <$> (mk <$> seq 0 (Z.to_nat J))) = seq 0 (length obs_points).
Proof.
  destruct n_jobs_bounds as [HJ HK].
  destruct (Z.to_nat J) as [|k] eqn:Hn; [lia|].
  rewrite seq_S, !fmap_app, concat_app, cells_prefix by lia.
  cbn [fmap list_fmap concat]. rewrite app_nil_r, cells_mk by lia.
  case_decide; [|lia].
  rewrite <- seq_app. f_equal. unfold N in HK. nia.
Qed.

Lemma n_jobs_le : (J <= N)%Z.
Proof.
  unfold J.
  pose proof (Z.quot_rem' N (Z.min S N)) as Hqr.
  pose proof (Z.rem_bound_pos N (Z.min S N) ltac:(lia) ltac:(lia)) as Hr.
  pose proof (Z.quot_pos N (Z.min S N) ltac:(lia) ltac:(lia)) as Hq.
  nia.
Qed.

(** Two jobs of the same call do not share a cell. *)
Lemma covers_unique (j1 j2 i : nat) :
  j1 < Z.to_nat J -> j2 < Z.to_nat J ->
  covers (mk j1) i -> covers (mk j2) i -> j1 = j2.
Proof.
  intros Hj1 Hj2. unfold covers.
  destruct (mk_range j1 Hj1) as (-> & -> & _).
  destruct (mk_range j2 Hj2) as (-> & -> & _).
  intros H1 H2. repeat case_decide; nia.
Qed.

End Ranges.

(** ** The multi-device path as one equation *)

Lemma get_nearest_round_multi (obs_points ref_points : list (@point coord))
    (batch_size n_gpus : setting) :
  get_nearest_round haversine ltb cu obs_points ref_points batch_size true n_gpus
  = (S ← resolve_batch_size (Z.of_nat (length obs_points)) batch_size
          (resolve_n_gpus cu n_gpus);
     J ← int_truediv (Z.of_nat (length obs_points))
          (Z.min S (Z.of_nat (length obs_points)));
     if decide (Z.to_nat J = 0 \/ 1 <= Z.to_nat (resolve_n_gpus cu n_gpus))
     then Returns (round_of haversine ltb cu obs_points ref_points S J
                     (Z.to_nat (resolve_n_gpus cu n_gpus)))
     else Raises IndexError).
Proof.
  unfold get_nearest_round. cbn [negb].
  destruct (resolve_batch_size _ _ _) as [S| |]; [|done..].
  cbn [mbind run_bind].
  destruct (int_truediv _ _) as [J| |]; [|done..].
  cbn [mbind run_bind]. unfold range.
  case_decide as Hcase.
  - rewrite enqueue_jobs_empty by done. cbn [mbind run_bind fst snd].
    unfold join_all.
    destruct (start_workers_spec
                (queue_of obs_points ref_points (Z.of_nat (length obs_points)) S J
                   (Z.to_nat (resolve_n_gpus cu n_gpus)) (Z.to_nat J)
                 <$> seq 0 (Z.to_nat (resolve_n_gpus cu n_gpus)))
                0 (device_arrays (length obs_points)))
      as (Hm & Hlen & Hnb & _).
    { apply Forall_fmap, Forall_forall. intros q _. apply queue_of_counted. }
    rewrite Hnb, Hlen. unfold round_of.
    by rewrite length_fmap, length_seq, <- app_assoc.
  - destruct (Z.to_nat J) as [|n]; [lia|].
    destruct (Z.to_nat (resolve_n_gpus cu n_gpus)) as [|g]; [|lia].
    cbn [replicate]. by rewrite enqueue_jobs_no_queue.
Qed.

(** ** A round with at least one job *)

Lemma covers_cells (jb : job coord) (i : nat) :
  (0 <= start jb)%Z -> covers jb i <-> i ∈ cells jb.
Proof. intros Hs. unfold covers, cells. rewrite elem_of_seq. lia. Qed.

Section ValidRound.

Variables (obs_points ref_points : list (@point coord)).
Variables (S : Z) (G : nat).

Let N : Z := Z.of_nat (length obs_points).
Let J : Z := Z.quot N (Z.min S N).
Let mk (j : nat) : job coord :=
  make_job obs_points ref_points N S J (Z.of_nat j).
Let r : round coord D := round_of haversine ltb cu obs_points ref_points S J G.

Hypothesis HN : 1 <= length obs_points.
Hypothesis HS : (1 <= S)%Z.
Hypothesis HG : 1 <= G.

#[local] Set Default Proof Using "HN HS HG".

Local Abbreviation job_ok := (job_ok obs_points ref_points).

Lemma round_jobs : concat (items <$> r_queues r) ≡ₚ mk <$> seq 0 (Z.to_nat J).
Proof.
  unfold r, round_of. cbn [r_queues].
  rewrite <- list_fmap_compose.
  rewrite (list_fmap_ext _ (fun q => mk <$> dealt G q 0 (Z.to_nat J))) by done.
  by rewrite concat_fmap_fmap, dealt_Permutation.
Qed.

Lemma round_job_inv (jb : job coord) :
  jb ∈ concat (items <$> r_queues r) ->
  exists j, j < Z.to_nat J /\ jb = mk j.
Proof.
  rewrite round_jobs. intros (j & -> & Hj%elem_of_seq)%list_elem_of_fmap.
  exists j. split; [lia | done].
Qed.

Lemma round_jobs_ok : Forall job_ok (concat (items <$> r_queues r)).
Proof.
  apply Forall_forall. intros jb (j & Hj & ->)%round_job_inv.
  apply mk_job_ok; (done || unfold N; lia).
Qed.

Lemma round_job_nonempty (jb : job coord) :
  jb ∈ concat (items <$> r_queues r) ->
  (0 <= start jb < end_ jb)%Z /\ (end_ jb <= N)%Z.
Proof.
  intros (j & Hj & ->)%round_job_inv.
  destruct (mk_range obs_points ref_points S ltac:(unfold N; lia) HS j Hj)
    as (_ & _ & ? & ?). done.
Qed.

Lemma round_cells :
  concat (cells <$> concat (items <$> r_queues r)) ≡ₚ seq 0 (length obs_points).
Proof.
  rewrite <- (cells_all obs_points ref_points S) by (done || lia).
  apply concat_Permutation, fmap_Permutation, round_jobs.
Qed.

Lemma round_steps_ok :
  Forall (fun st => job_ok (step_job st)) (steps_all cu 0 (r_queues r)).
Proof.
  pose proof round_jobs_ok as Hall. rewrite Forall_forall in Hall.
  apply Forall_forall. intros st Hst. by apply Hall, (step_job_steps_all _ 0).
Qed.

(** Two jobs of the round that cover the same cell are the same job. *)
Lemma round_covers_unique (jb1 jb2 : job coord) (i : nat) :
  jb1 ∈ concat (items <$> r_queues r) -> jb2 ∈ concat (items <$> r_queues r) ->
  covers jb1 i -> covers jb2 i -> jb1 = jb2.
Proof.
  intros (j1 & Hj1 & ->)%round_job_inv (j2 & Hj2 & ->)%round_job_inv Hc1 Hc2.
  f_equal.
  exact (covers_unique obs_points ref_points S ltac:(unfold N; lia) HS j1 j2 i
           Hj1 Hj2 Hc1 Hc2).
Qed.

Lemma round_jobs_NoDup :
  NoDup (served_all cu 0 (r_queues r) ++ failed_all cu 0 (r_queues r)
         ++ unstarted_all cu 0 (r_queues r)).
Proof.
  rewrite <- (unserved_all_split _ 0), <- (served_all_unserved_all _ 0), round_jobs.
  apply NoDup_fmap_2_strong; [|apply NoDup_seq].
  intros j1 j2 _ _ Heq. apply (f_equal start) in Heq. unfold mk in Heq.
  cbn [make_job start] in Heq. nia.
Qed.

Lemma round_jobs_elem (jb : job coord) :
  jb ∈ served_all cu 0 (r_queues r) ++ failed_all cu 0 (r_queues r)
       ++ unstarted_all cu 0 (r_queues r) ->
  jb ∈ concat (items <$> r_queues r).
Proof.
  by rewrite <- (unserved_all_split _ 0), <- (served_all_unserved_all _ 0).
Qed.

(** A cell of a completed job, or of a job never started, lies in no
    failed job. *)
Lemma round_not_failed (jb : job coord) (i : nat) :
  jb ∈ served_all cu 0 (r_queues r) \/ jb ∈ unstarted_all cu 0 (r_queues r) ->
  covers jb i ->
  ~ Exists (fun jb' => covers jb' i) (failed_all cu 0 (r_queues r)).
Proof.
  intros Hjb Hcov (fj & Hfj & Hcf)%Exists_exists.
  assert (jb = fj) as ->.
  { apply (round_covers_unique _ _ i); [| |done..];
      apply round_jobs_elem; rewrite !elem_of_app; tauto. }
  pose proof round_jobs_NoDup as Hnd.
  destruct Hjb as [Hs|Hu].
  - apply NoDup_app in Hnd as (_ & Hdisj & _).
    apply (Hdisj fj Hs). apply elem_of_app. by left.
  - apply NoDup_app in Hnd as (_ & _ & Hnd).
    apply NoDup_app in Hnd as (_ & Hdisj & _). by apply (Hdisj fj).
Qed.

Lemma device_arrays_ok : mem_ok obs_points (device_arrays (D:=D) (length obs_points)).
Proof. split; apply length_replicate. Qed.

Lemma round_mem_eq :
  r_mem r = run_steps (steps_all cu 0 (r_queues r)) (device_arrays (length obs_points)).
Proof.
  unfold r, round_of. cbn [r_mem r_queues].
  destruct (start_workers_spec
              (queue_of obs_points ref_points (Z.of_nat (length obs_points)) S J G
                 (Z.to_nat J) <$> seq 0 G)
              0 (device_arrays (length obs_points))) as (Hm & _); [|done].
  apply Forall_fmap, Forall_forall. intros q _. apply queue_of_counted.
Qed.

Lemma round_mem_ok : mem_ok obs_points (r_mem r).
Proof.
  rewrite round_mem_eq.
  destruct (run_steps_cells obs_points ref_points (steps_all cu 0 (r_queues r))
              (device_arrays (length obs_points)) 0
              round_steps_ok device_arrays_ok) as (Hok & _).
  exact Hok.
Qed.


(** A cell outside the failed jobs holds the result of the kernels when a
    completed job covers it, and is as allocated otherwise. *)
Lemma round_cell (i : nat) :
  i < length obs_points ->
  ~ Exists (fun jb => covers jb i) (failed_all cu 0 (r_queues r)) ->
  out_idx (r_mem r) !! i
  = (if decide (Exists (fun jb => covers jb i) (served_all cu 0 (r_queues r)))
     then (fun o => cand_idx (reduce_pair haversine ltb 32 ref_points o))
            <$> obs_points !! i
     else Some None) /\
  out_dist (r_mem r) !! i
  = (if decide (Exists (fun jb => covers jb i) (served_all cu 0 (r_queues r)))
     then (fun o => cand_dist (reduce_pair haversine ltb 32 ref_points o))
            <$> obs_points !! i
     else Some None).
Proof.
  intros Hi Hnf.
  destruct (run_steps_cells obs_points ref_points (steps_all cu 0 (r_queues r))
              (device_arrays (length obs_points)) i
              round_steps_ok device_arrays_ok) as (_ & Hcell & _).
  rewrite failed_jobs_steps_all, done_jobs_steps_all in Hcell.
  destruct (Hcell Hnf) as [Hidx Hdist].
  rewrite round_mem_eq, Hidx, Hdist. cbn [device_arrays out_idx out_dist].
  by rewrite !(lookup_replicate_2 _ _ _ Hi).
Qed.

(** The cells of a completed job hold the result of the kernels. *)
Lemma round_served_cell (jb : job coord) (i : nat) (o : @point coord) :
  jb ∈ served_all cu 0 (r_queues r) -> covers jb i -> obs_points !! i = Some o ->
  out_idx (r_mem r) !! i
  = Some (cand_idx (reduce_pair haversine ltb 32 ref_points o)) /\
  out_dist (r_mem r) !! i
  = Some (cand_dist (reduce_pair haversine ltb 32 ref_points o)).
Proof.
  intros Hjb Hcov Ho.
  destruct (round_cell i) as [Hi Hd].
  { by eapply lookup_lt_Some. }
  { apply (round_not_failed jb); [by left | done]. }
  rewrite Hi, Hd, Ho.
  case_decide as HE; [done|]. exfalso. apply HE, Exists_exists. eauto.
Qed.

(** The cells of a job that no worker takes off its queue are left as
    allocated. *)
Lemma round_unstarted_cell (jb : job coord) (i : nat) :
  jb ∈ unstarted_all cu 0 (r_queues r) -> covers jb i ->
  out_idx (r_mem r) !! i = Some None /\ out_dist (r_mem r) !! i = Some None.
Proof.
  intros Hjb Hcov.
  assert (Hall : jb ∈ concat (items <$> r_queues r)).
  { apply round_jobs_elem. rewrite !elem_of_app. tauto. }
  destruct (round_job_nonempty jb Hall) as [Hlt Hle].
  destruct (round_cell i) as [Hi Hd].
  { unfold covers, N in *. lia. }
  { apply (round_not_failed jb); [by right | done]. }
  rewrite Hi, Hd.
  case_decide as HE; [|done]. exfalso.
  apply Exists_exists in HE as (jb' & Hjb' & Hcov').
  assert (jb' = jb) as ->.
  { apply (round_covers_unique _ _ i); [|done..].
    apply round_jobs_elem. rewrite !elem_of_app. tauto. }
  pose proof round_jobs_NoDup as Hnd.
  apply NoDup_app in Hnd as (_ & Hdisj & _).
  apply (Hdisj jb Hjb'). rewrite elem_of_app. tauto.
Qed.

(** When every device exists and every launch succeeds, the output arrays
    hold the result of the kernels for every observation. *)
Lemma round_complete :
  G <= n_devices cu ->
  (forall cid s e, launch_ok cu cid s e = true) ->
  out_idx (r_mem r)
  = (fun o => cand_idx (reduce_pair haversine ltb 32 ref_points o)) <$> obs_points /\
  out_dist (r_mem r)
  = (fun o => cand_dist (reduce_pair haversine ltb 32 ref_points o)) <$> obs_points.
Proof.
  intros Hdev Hok.
  destruct (served_all_complete (r_queues r) 0) as [Hall _]; [|done|].
  { unfold r, round_of. cbn [r_queues]. rewrite length_fmap, length_seq. lia. }
  destruct round_mem_ok as [Hli Hld].
  assert (Hcell : forall i o, obs_points !! i = Some o ->
            exists jb, jb ∈ served_all cu 0 (r_queues r) /\ covers jb i).
  { intros i o Ho%lookup_lt_Some.
    assert (Hi : i ∈ seq 0 (length obs_points)) by (apply elem_of_seq; lia).
    rewrite <- round_cells in Hi.
    apply elem_of_concat in Hi as (l & Hil & (jb & -> & Hjb)%list_elem_of_fmap).
    exists jb. rewrite Hall. split; [done|].
    apply covers_cells; [|done].
    destruct (round_job_nonempty jb Hjb). lia. }
  split; apply list_eq; intros i; rewrite list_lookup_fmap;
    destruct (obs_points !! i) as [o|] eqn:Ho.
  - destruct (Hcell i o Ho) as (jb & Hjb & Hcov).
    by destruct (round_served_cell jb i o Hjb Hcov Ho) as [-> _].
  - apply lookup_ge_None. apply lookup_ge_None in Ho. lia.
  - destruct (Hcell i o Ho) as (jb & Hjb & Hcov).
    by destruct (round_served_cell jb i o Hjb Hcov Ho) as [_ ->].
  - apply lookup_ge_None. apply lookup_ge_None in Ho. lia.
Qed.

End ValidRound.

Lemma round_valid (obs_points ref_points : list (@point coord))
    (batch_size n_gpus : setting) (S : Z) :
  1 <= length obs_points ->
  (1 <= S)%Z ->
  resolve_batch_size (Z.of_nat (length obs_points)) batch_size
    (resolve_n_gpus cu n_gpus) = Returns S ->
  (1 <= resolve_n_gpus cu n_gpus)%Z ->
  get_nearest_round haversine ltb cu obs_points ref_points batch_size true n_gpus
  = Returns (round_of haversine ltb cu obs_points ref_points S
               (Z.quot (Z.of_nat (length obs_points))
                       (Z.min S (Z.of_nat (length obs_points))))
               (Z.to_nat (resolve_n_gpus cu n_gpus))).
Proof.
  intros HN HS Hres HG.
  rewrite get_nearest_round_multi, Hres. cbn [mbind run_bind].
  rewrite int_truediv_n_jobs by lia. cbn [mbind run_bind].
  case_decide; [done | lia].
Qed.

Lemma int_truediv_inv (a b q : Z) :
  int_truediv a b = Returns q -> b <> 0%Z /\ q = Z.quot a b.
Proof.
  unfold int_truediv. destruct (Z.eqb_spec b 0); [done|]. by intros [= <-].
Qed.

(** ** The single-device path *)

Lemma write_view_whole {V : Type} (n : nat) (vals : list (option V)) :
  length vals = n -> write_view 0 n vals (replicate n None) = vals.
Proof.
  intros Hlen. unfold write_view. cbn [Nat.add].
  rewrite (take_ge vals n) by lia. rewrite take_0. cbn [app].
  rewrite drop_ge by (rewrite length_replicate; lia).
  apply app_nil_r.
Qed.

Lemma get_nearest_round_single (obs_points ref_points : list (@point coord))
    (batch_size n_gpus : setting) :
  get_nearest_round haversine ltb cu obs_points ref_points batch_size false n_gpus
  = if launch_ok cu 0 0 (Z.of_nat (length obs_points))
    then Returns
           {| r_mem :=
                {| out_idx := (fun o => cand_idx (reduce_pair haversine ltb 32 ref_points o))
                              <$> obs_points;
                   out_dist := (fun o => cand_dist (reduce_pair haversine ltb 32 ref_points o))
                               <$> obs_points;
                   written := seq 0 (length obs_points) |};
              r_queues := []; r_workers := []; r_log := [] |}
    else Raises CudaError.
Proof.
  unfold get_nearest_round. cbn [negb].
  destruct (launch_ok cu 0 0 _); [|done].
  do 2 f_equal. unfold launch, device_arrays.
  cbn [out_idx out_dist written fst snd app].
  rewrite kernels_per_observation, !length_replicate, <- !list_fmap_compose.
  rewrite !write_view_whole by (by rewrite length_fmap).
  rewrite take_ge by (by rewrite length_fmap).
  by rewrite length_fmap.
Qed.

(** What [get_nearest] returns when nothing fails, on either path. *)
Lemma get_nearest_complete (obs_points ref_points : list (@point coord))
    (batch_size : setting) (multigpu : bool) (n_gpus : setting) :
  1 <= length obs_points ->
  (forall cid s e, launch_ok cu cid s e = true) ->
  (multigpu = true ->
   exists S,
     resolve_batch_size (Z.of_nat (length obs_points)) batch_size
       (resolve_n_gpus cu n_gpus) = Returns S /\
     (1 <= S)%Z /\
     (1 <= resolve_n_gpus cu n_gpus <= Z.of_nat (n_devices cu))%Z) ->
  get_nearest haversine ltb cu obs_points ref_points batch_size multigpu n_gpus
  = Returns
      ((fun o => cand_idx (reduce_pair haversine ltb 32 ref_points o)) <$> obs_points,
       (fun o => cand_dist (reduce_pair haversine ltb 32 ref_points o)) <$> obs_points).
Proof.
  intros HN Hok Hmulti. unfold get_nearest. destruct multigpu.
  - destruct (Hmulti eq_refl) as (S & Hres & HS & HG).
    rewrite (round_valid _ _ _ _ S) by (done || lia).
    cbn [mbind run_bind].
    destruct (round_complete obs_points ref_points S
                (Z.to_nat (resolve_n_gpus cu n_gpus)) HN HS ltac:(lia) ltac:(lia) Hok)
      as [-> ->].
    done.
  - rewrite get_nearest_round_single, Hok. done.
Qed.

(** Every round of the multi-device path is a [round_of]. *)
Lemma get_nearest_round_inv (obs_points ref_points : list (@point coord))
    (batch_size n_gpus : setting) (r : round coord D) :
  get_nearest_round haversine ltb cu obs_points ref_points batch_size true n_gpus
  = Returns r ->
  exists S J,
    resolve_batch_size (Z.of_nat (length obs_points)) batch_size
      (resolve_n_gpus cu n_gpus) = Returns S /\
    int_truediv (Z.of_nat (length obs_points))
      (Z.min S (Z.of_nat (length obs_points))) = Returns J /\
    (Z.to_nat J = 0 \/ 1 <= Z.to_nat (resolve_n_gpus cu n_gpus)) /\
    r = round_of haversine ltb cu obs_points ref_points S J
          (Z.to_nat (resolve_n_gpus cu n_gpus)).
Proof.
  rewrite get_nearest_round_multi.
  destruct (resolve_batch_size _ _ _) as [S| |] eqn:HS; [|done..].
  cbn [mbind run_bind].
  destruct (int_truediv _ _) as [J| |] eqn:HJ; [|done..].
  cbn [mbind run_bind]. case_decide; [|done].
  intros [= <-]. by exists S, J.
Qed.

Lemma lookup_round_queues (obs_points ref_points : list (@point coord))
    (S J : Z) (G q : nat) (Q : Queue (job coord)) :
  r_queues (round_of haversine ltb cu obs_points ref_points S J G) !! q = Some Q ->
  q < G /\
  Q = queue_of obs_points ref_points (Z.of_nat (length obs_points)) S J G (Z.to_nat J) q.
Proof.
  unfold round_of. cbn [r_queues]. rewrite list_lookup_fmap.
  destruct (seq 0 G !! q) as [q'|] eqn:Hq; [|done].
  apply lookup_seq in Hq as [-> Hq]. cbn. intros [= <-]. done.
Qed.

Lemma steps_all_nil (queues : list (Queue (job coord))) :
  forall qid : nat,
  Forall (fun q => items q = []) queues -> steps_all cu qid queues = [].
Proof.
  induction queues as [|q qs IH]; intros qid Hqs; [done|].
  apply Forall_cons in Hqs as [Hq Hqs]. cbn [steps_all].
  rewrite Hq, IH by done. by destruct (qid <? n_devices cu)%nat.
Qed.

(** A round without jobs leaves the arrays as allocated. *)
Lemma round_mem_idle (obs_points ref_points : list (@point coord)) (S J : Z) (G : nat) :
  Z.to_nat J = 0 ->
  r_mem (round_of haversine ltb cu obs_points ref_points S J G)
  = device_arrays (length obs_points).
Proof.
  intros HJ. unfold round_of. cbn [r_mem]. rewrite HJ.
  destruct (start_workers_spec
              (queue_of obs_points ref_points (Z.of_nat (length obs_points)) S J G 0
               <$> seq 0 G)
              0 (device_arrays (length obs_points))) as (-> & _).
  { apply Forall_fmap, Forall_forall. intros q _. apply queue_of_counted. }
  rewrite steps_all_nil; [done|].
  apply Forall_fmap, Forall_forall. by intros q _.
Qed.

(** On either path, a cell outside the failed jobs is as allocated in both
    arrays or holds in both the result of the kernels for its observation. *)
Lemma get_nearest_cell_paired (obs_points ref_points : list (@point coord))
    (batch_size : setting) (multigpu : bool) (n_gpus : setting) (r : round coord D)
    (i : nat) (o : @point coord) :
  get_nearest_round haversine ltb cu obs_points ref_points batch_size multigpu n_gpus
  = Returns r ->
  obs_points !! i = Some o ->
  ~ Exists (fun jb => covers jb i) (failed_all cu 0 (r_queues r)) ->
  (out_idx (r_mem r) !! i = Some None /\ out_dist (r_mem r) !! i = Some None) \/
  (out_idx (r_mem r) !! i
   = Some (cand_idx (reduce_pair haversine ltb 32 ref_points o)) /\
   out_dist (r_mem r) !! i
   = Some (cand_dist (reduce_pair haversine ltb 32 ref_points o))).
Proof.
  intros Hround Ho Hnf.
  assert (Hi : i < length obs_points) by (by eapply lookup_lt_Some).
  destruct multigpu.
  - apply get_nearest_round_inv in Hround as (S & J & _ & HJ & Hcase & ->).
    apply int_truediv_inv in HJ as [Hm ->].
    destruct (decide (Z.to_nat (Z.quot (Z.of_nat (length obs_points))
                                  (Z.min S (Z.of_nat (length obs_points)))) = 0))
      as [Hn0|Hn1].
    + rewrite round_mem_idle by done. cbn [device_arrays out_idx out_dist].
      rewrite !(lookup_replicate_2 _ _ _ Hi). by left.
    + destruct (quot_pos_inv (Z.of_nat (length obs_points))
                  (Z.min S (Z.of_nat (length obs_points)))) as [Hmin _]; [lia..|].
      destruct (round_cell obs_points ref_points S
                  (Z.to_nat (resolve_n_gpus cu n_gpus))
                  ltac:(lia) ltac:(lia) ltac:(lia) i Hi Hnf) as [-> ->].
      rewrite Ho. case_decide; [by right | by left].
  - rewrite get_nearest_round_single in Hround.
    destruct (launch_ok cu 0 0 _); [|done].
    apply Returns_inj in Hround. subst r. cbn [r_mem out_idx out_dist].
    rewrite !list_lookup_fmap, Ho. by right.
Qed.

(** *** The log of a round *)





(** The jobs behind a failed one are never started. *)
Lemma unstarted_all_elem (queues : list (Queue (job coord))) :
  forall (qid q : nat) (Q : Queue (job coord)) (jb : job coord),
  queues !! q = Some Q ->
  jb ∈ (if (qid + q <? n_devices cu)%nat
        then unstarted cu (qid + q) (items Q) else items Q) ->
  jb ∈ unstarted_all cu qid queues.
Proof.
  induction queues as [|Q0 qs IH]; intros qid q Q jb HQ Hjb; [done|].
  cbn [unstarted_all]. apply elem_of_app.
  destruct q as [|q]; cbn in HQ.
  - injection HQ as ->. left. by rewrite Nat.add_0_r in Hjb.
  - right. apply (IH (S qid) q Q jb HQ).
    by replace (S qid + q) with (qid + S q) by lia.
Qed.

(** * The claims *)


(** C7.  In every round of the multi-device path, the [j]-th job created
    is put on queue [j mod G]; each queue holds, in the order of creation,
    exactly the jobs put on it; queue [q] holds [J / G] jobs, and one more
    when [q < J mod G], so that no two queues differ by more than one job. *)
Theorem jobs_dealt_round_robin (obs_points ref_points : list (@point coord))
    (batch_size n_gpus : setting) (r : round coord D) :
  get_nearest_round haversine ltb cu obs_points ref_points batch_size true n_gpus
  = Returns r ->
  let G := length (r_queues r) in
  let J := length (puts (r_log r)) in
  (forall j q rg, puts (r_log r) !! j = Some (q, rg) -> q = j mod G /\ q < G) /\
  (forall q Q, r_queues r !! q = Some Q ->
     job_range <$> items Q = puts_to q (r_log r) /\
     length (items Q) = J / G + (if decide (q < J mod G) then 1 else 0)) /\
  (forall Q1 Q2, Q1 ∈ r_queues r -> Q2 ∈ r_queues r ->
     length (items Q1) <= length (items Q2) + 1).
Proof.
  intros (S & J & _ & _ & Hcase & ->)%get_nearest_round_inv.
  set (G0 := Z.to_nat (resolve_n_gpus cu n_gpus)) in *.
  set (n := Z.to_nat J) in *.
  assert (HG : length (r_queues (round_of haversine ltb cu obs_points ref_points S J G0)) = G0).
  { unfold round_of. cbn [r_queues]. by rewrite length_fmap, length_seq. }
  assert (Hputs : puts (r_log (round_of haversine ltb cu obs_points ref_points S J G0))
                  = (fun j => (j mod G0,
                       job_range (make_job obs_points ref_points
                                    (Z.of_nat (length obs_points)) S J (Z.of_nat j))))
                    <$> seq 0 n).
  { unfold round_of. cbn [r_log]. by rewrite puts_put_events. }
  assert (Hqueue : forall q Q,
            r_queues (round_of haversine ltb cu obs_points ref_points S J G0) !! q = Some Q ->
            job_range <$> items Q
            = puts_to q (r_log (round_of haversine ltb cu obs_points ref_points S J G0)) /\
            length (items Q) = n / G0 + (if decide (q < n mod G0) then 1 else 0)).
  { intros q Q [Hq ->]%lookup_round_queues. unfold round_of, queue_of.
    cbn [r_log items]. rewrite puts_to_put_events, <- list_fmap_compose.
    split; [reflexivity|]. rewrite length_fmap. apply length_dealt; lia. }
  cbv zeta. rewrite HG, Hputs, length_fmap, length_seq.
  split; [|split].
  - intros j q rg Hj. rewrite list_lookup_fmap in Hj.
    destruct (seq 0 n !! j) as [j'|] eqn:Hj'; [|done].
    apply lookup_seq in Hj' as [-> Hlt]. cbn in Hj. injection Hj as <- _.
    split; [done|]. apply Nat.mod_upper_bound. lia.
  - exact Hqueue.
  - intros Q1 Q2 [q1 Hq1]%list_elem_of_lookup [q2 Hq2]%list_elem_of_lookup.
    destruct (Hqueue _ _ Hq1) as [_ ->]. destruct (Hqueue _ _ Hq2) as [_ ->].
    repeat case_decide; lia.
Qed.




(** C8, as the code has it.  With at least one observation, a batch
    size [S >= 1] and at least one queue, [get_nearest] returns the two
    output arrays whatever fails.  A worker on an existing device completes
    the jobs of its queue up to the first job that fails, then dies: the
    failed job has left the queue and is not run again, and the jobs behind it
    stay in the queue.  What other workers do does not depend on that
    failure.  The cells of the completed jobs hold the result of the kernels,
    and the cells of the jobs behind a failed one, which no worker starts, are
    left as allocated.  A failed job touches no cell outside its own range;
    what it leaves inside is what the failure left there. *)
Theorem failed_worker_dies_alone (obs_points ref_points : list (@point coord))
    (batch_size n_gpus : setting) (S : Z) :
  1 <= length obs_points ->
  (1 <= S)%Z ->
  resolve_batch_size (Z.of_nat (length obs_points)) batch_size
    (resolve_n_gpus cu n_gpus) = Returns S ->
  (1 <= resolve_n_gpus cu n_gpus)%Z ->
  exists r,
    get_nearest_round haversine ltb cu obs_points ref_points batch_size true n_gpus
    = Returns r /\
    get_nearest haversine ltb cu obs_points ref_points batch_size true n_gpus
    = Returns (out_idx (r_mem r), out_dist (r_mem r)) /\
    (forall qid Q w,
       r_queues r !! qid = Some Q -> r_workers r !! qid = Some w ->
       qid < n_devices cu ->
       w_iters w = length (served cu qid (items Q)) /\
       (unserved cu qid (items Q) = [] -> w_end w = Returned) /\
       (forall jb rest, unserved cu qid (items Q) = jb :: rest ->
          launch_ok cu qid (start jb) (end_ jb) = false /\
          items Q = served cu qid (items Q) ++ jb :: rest /\
          w_end w = Died CudaError /\
          items (w_queue w) = rest)) /\
    (forall jb i o,
       jb ∈ served_all cu 0 (r_queues r) -> covers jb i ->
       obs_points !! i = Some o ->
       out_idx (r_mem r) !! i
       = Some (cand_idx (reduce_pair haversine ltb 32 ref_points o)) /\
       out_dist (r_mem r) !! i
       = Some (cand_dist (reduce_pair haversine ltb 32 ref_points o))) /\
    (forall qid Q jb rest jb' i,
       r_queues r !! qid = Some Q -> qid < n_devices cu ->
       unserved cu qid (items Q) = jb :: rest ->
       jb' ∈ rest -> covers jb' i ->
       out_idx (r_mem r) !! i = Some None /\ out_dist (r_mem r) !! i = Some None) /\
    (forall qid Q jb rest m i,
       r_queues r !! qid = Some Q -> qid < n_devices cu ->
       unserved cu qid (items Q) = jb :: rest ->
       ~ covers jb i ->
       out_idx (fail_job cu qid jb m) !! i = out_idx m !! i /\
       out_dist (fail_job cu qid jb m) !! i = out_dist m !! i).
Proof.
  intros HN HS Hres HG.
  pose proof (round_valid _ ref_points _ _ S HN HS Hres HG) as Hround.
  eexists. split; [exact Hround|].
  assert (HG' : 1 <= Z.to_nat (resolve_n_gpus cu n_gpus)) by lia.
  split; [|split; [|split; [|split]]].
  - unfold get_nearest. by rewrite Hround.
  - intros qid Q w HQ Hw Hdev.
    destruct (start_workers_spec
                (r_queues (round_of haversine ltb cu obs_points ref_points S
                             (Z.quot (Z.of_nat (length obs_points))
                                (Z.min S (Z.of_nat (length obs_points))))
                             (Z.to_nat (resolve_n_gpus cu n_gpus))))
                0 (device_arrays (length obs_points)))
      as (_ & _ & _ & Hws).
    { apply Forall_fmap, Forall_forall. intros q _. apply queue_of_counted. }
    destruct (Hws qid w Q Hw HQ) as (Hit & Hwq & Hend). cbn [Nat.add] in *.
    destruct (Nat.ltb_spec qid (n_devices cu)) as [_|?]; [|lia].
    pose proof (served_unserved qid (items Q)) as Hsu.
    split; [done|]. split.
    + intros Hnil. rewrite Hnil, app_nil_r in Hsu.
      rewrite Hend, decide_True; [done|]. split; [done|]. by rewrite <- Hsu.
    + intros jb rest Hun. rewrite Hun in Hsu.
      split; [by eapply unserved_head|]. split; [done|]. split.
      * rewrite Hend, decide_False; [done|]. intros [_ Hlen].
        apply (f_equal length) in Hsu. rewrite length_app in Hsu.
        cbn in Hsu. lia.
      * rewrite Hwq. cbn [items]. rewrite Hsu at 2.
        rewrite drop_app_ge by lia.
        replace (_ - _) with 1 by lia. done.
  - intros jb i o. by apply round_served_cell.
  - intros qid Q jb rest jb' i HQ Hdev Hun Hjb' Hcov.
    apply (round_unstarted_cell obs_points ref_points S _ HN HS HG' jb' i); [|done].
    apply (unstarted_all_elem _ 0 qid Q jb' HQ). cbn [Nat.add].
    destruct (Nat.ltb_spec qid (n_devices cu)); [|lia].
    unfold unstarted. by rewrite Hun.
  - intros qid Q jb rest m i HQ Hdev Hun Hcov.
    assert (Hjb : jb ∈ concat (items <$> r_queues
                    (round_of haversine ltb cu obs_points ref_points S
                       (Z.quot (Z.of_nat (length obs_points))
                          (Z.min S (Z.of_nat (length obs_points))))
                       (Z.to_nat (resolve_n_gpus cu n_gpus))))).
    { apply elem_of_concat. exists (items Q). split.
      - rewrite (served_unserved qid (items Q)), Hun, elem_of_app. right. left.
      - apply list_elem_of_fmap. exists Q. split; [done|].
        by eapply list_elem_of_lookup_2. }
    destruct (round_job_nonempty obs_points ref_points S _ HN HS HG' jb Hjb).
    apply fail_job_frame; (done || lia).
Qed.

(** C3, as the code has it.  For a non-empty observation set, when every
    launch succeeds, the multi-device path returns what the single-device
    path returns for every device count [G] between 1 and the number of
    devices and every batch size that resolves to [S >= 1]; so does, in
    particular, the multi-device path with one device and the automatic
    batch size. *)
Theorem single_and_multi_agree (obs_points ref_points : list (@point coord)) :
  1 <= length obs_points ->
  (forall cid s e, launch_ok cu cid s e = true) ->
  (forall batch_size n_gpus S batch_size' n_gpus',
     resolve_batch_size (Z.of_nat (length obs_points)) batch_size
       (resolve_n_gpus cu n_gpus) = Returns S ->
     (1 <= S)%Z ->
     (1 <= resolve_n_gpus cu n_gpus <= Z.of_nat (n_devices cu))%Z ->
     get_nearest haversine ltb cu obs_points ref_points batch_size true n_gpus
     = get_nearest haversine ltb cu obs_points ref_points batch_size' false n_gpus') /\
  (1 <= n_devices cu ->
   forall batch_size' n_gpus',
     get_nearest haversine ltb cu obs_points ref_points Auto true (Num 1)
     = get_nearest haversine ltb cu obs_points ref_points batch_size' false n_gpus').
Proof.
  intros HN Hok. split.
  - intros batch_size n_gpus S batch_size' n_gpus' Hres HS HG.
    rewrite !get_nearest_complete; try done.
    intros _. eauto.
  - intros Hdev batch_size' n_gpus'.
    rewrite !get_nearest_complete; try done.
    intros _. exists (Z.of_nat (length obs_points)).
    cbn [resolve_batch_size resolve_n_gpus]. unfold int_truediv. cbn.
    rewrite Z.quot_1_r. split; [done|]. lia.
Qed.

(** C1, as the code has it.  For non-empty observation and reference
    sets, when every launch succeeds and, on the multi-device path, the
    batch size resolves to [S >= 1] and the device count lies between 1 and
    the number of devices, [get_nearest] returns one index and one distance
    per observation: the index of a reference than which no reference is
    strictly closer, and the distance to that reference. *)
Theorem nearest_reference_found (obs_points ref_points : list (@point coord))
    (batch_size : setting) (multigpu : bool) (n_gpus : setting) :
  strict_weak_order ltb ->
  1 <= length obs_points ->
  1 <= length ref_points ->
  (forall cid s e, launch_ok cu cid s e = true) ->
  (multigpu = true ->
   exists S,
     resolve_batch_size (Z.of_nat (length obs_points)) batch_size
       (resolve_n_gpus cu n_gpus) = Returns S /\
     (1 <= S)%Z /\
     (1 <= resolve_n_gpus cu n_gpus <= Z.of_nat (n_devices cu))%Z) ->
  exists indices distances,
    get_nearest haversine ltb cu obs_points ref_points batch_size multigpu n_gpus
    = Returns (indices, distances) /\
    length indices = length obs_points /\
    length distances = length obs_points /\
    forall i o, obs_points !! i = Some o ->
      exists j r,
        indices !! i = Some (Some j) /\
        ref_points !! j = Some r /\
        distances !! i = Some (Some (haversine o r)) /\
        forall k r', ref_points !! k = Some r' ->
          ltb (haversine o r') (haversine o r) = false.
Proof.
  intros Hswo HN HR Hok Hmulti. do 2 eexists.
  split; [by apply get_nearest_complete|].
  rewrite !length_fmap. split; [done|]. split; [done|].
  intros i o Ho.
  destruct (nearest_first Hswo ref_points o) as (j & r & Hj & Hnear & Hmin & _).
  { intros ->. cbn in HR. lia. }
  exists j, r. rewrite !list_lookup_fmap, Ho. cbn [fmap option_fmap option_map].
  rewrite (reduce_pair_nearest Hswo) by lia. rewrite Hnear.
  done.
Qed.

(** C5, as the code has it.  With fewer observations than devices, an
    explicit batch size [S >= 1], a device count no larger than the number of
    devices and no failing launch, [get_nearest] returns complete results:
    the queues from number [N_OBS] on hold no job, their workers see a zero
    counter and return without an iteration, and every observation gets the
    index of a reference than which none is strictly closer, with its
    distance. *)
Theorem fewer_observations_than_devices (obs_points ref_points : list (@point coord))
    (S : Z) (n_gpus : setting) :
  strict_weak_order ltb ->
  1 <= length obs_points ->
  1 <= length ref_points ->
  (forall cid s e, launch_ok cu cid s e = true) ->
  (1 <= S)%Z ->
  (Z.of_nat (length obs_points) < resolve_n_gpus cu n_gpus <= Z.of_nat (n_devices cu))%Z ->
  exists r,
    get_nearest_round haversine ltb cu obs_points ref_points (Num S) true n_gpus
    = Returns r /\
    get_nearest haversine ltb cu obs_points ref_points (Num S) true n_gpus
    = Returns (out_idx (r_mem r), out_dist (r_mem r)) /\
    length (r_queues r) = Z.to_nat (resolve_n_gpus cu n_gpus) /\
    length (r_workers r) = Z.to_nat (resolve_n_gpus cu n_gpus) /\
    (forall q Q w,
       length obs_points <= q ->
       r_queues r !! q = Some Q -> r_workers r !! q = Some w ->
       items Q = [] /\ unfinished_tasks Q = 0 /\
       w_end w = Returned /\ w_iters w = 0) /\
    (forall i o, obs_points !! i = Some o ->
       exists j p,
         out_idx (r_mem r) !! i = Some (Some j) /\
         ref_points !! j = Some p /\
         out_dist (r_mem r) !! i = Some (Some (haversine o p)) /\
         forall k p', ref_points !! k = Some p' ->
           ltb (haversine o p') (haversine o p) = false).
Proof.
  intros Hswo HN HR Hok HS HG.
  pose proof (round_valid obs_points ref_points (Num S) n_gpus S HN HS eq_refl
                ltac:(lia)) as Hround.
  eexists. split; [exact Hround|].
  pose proof (n_jobs_le obs_points S ltac:(lia) HS) as HJ.
  pose proof (round_complete obs_points ref_points S
                (Z.to_nat (resolve_n_gpus cu n_gpus)) HN HS ltac:(lia) ltac:(lia) Hok)
    as [Hidx Hdist].
  destruct (start_workers_spec
              (r_queues (round_of haversine ltb cu obs_points ref_points S
                           (Z.quot (Z.of_nat (length obs_points))
                              (Z.min S (Z.of_nat (length obs_points))))
                           (Z.to_nat (resolve_n_gpus cu n_gpus))))
              0 (device_arrays (length obs_points)))
    as (_ & Hlenw & _ & Hws).
  { apply Forall_fmap, Forall_forall. intros q _. apply queue_of_counted. }
  assert (Hlenq : length (r_queues (round_of haversine ltb cu obs_points ref_points S
                           (Z.quot (Z.of_nat (length obs_points))
                              (Z.min S (Z.of_nat (length obs_points))))
                           (Z.to_nat (resolve_n_gpus cu n_gpus))))
                  = Z.to_nat (resolve_n_gpus cu n_gpus)).
  { unfold round_of. cbn [r_queues]. by rewrite length_fmap, length_seq. }
  split; [|split; [done|split; [|split]]].
  - unfold get_nearest. by rewrite Hround.
  - change (r_workers (round_of haversine ltb cu obs_points ref_points S _ _))
      with (start_workers haversine ltb cu 0
              (r_queues (round_of haversine ltb cu obs_points ref_points S
                           (Z.quot (Z.of_nat (length obs_points))
                              (Z.min S (Z.of_nat (length obs_points))))
                           (Z.to_nat (resolve_n_gpus cu n_gpus))))
              (device_arrays (length obs_points))).1.
    by rewrite Hlenw.
  - intros q Q w Hq HQ Hw.
    destruct (Hws q w Q Hw HQ) as (Hit & _ & Hend). cbn [Nat.add] in *.
    apply lookup_round_queues in HQ as [HqG ->].
    unfold queue_of in *. cbn [items unfinished_tasks] in *.
    rewrite dealt_idle in * by lia.
    rewrite fmap_nil in *. cbn [served length] in *.
    split; [done|]. split; [done|].
    rewrite Hend, Hit. split; [|by destruct (q <? n_devices cu)%nat].
    rewrite decide_True; [done|]. split; [lia|done].
  - intros i o Ho.
    destruct (nearest_first Hswo ref_points o) as (j & p & Hj & Hnear & Hmin & _).
    { intros ->. cbn in HR. lia. }
    exists j, p. rewrite Hidx, Hdist, !list_lookup_fmap, Ho.
    cbn [fmap option_fmap option_map].
    rewrite (reduce_pair_nearest Hswo) by lia. rewrite Hnear. done.
Qed.


(** C4, as the code has it.  [get_nearest] checks none of its arguments
    and knows no configuration error.  On the multi-device path, a batch size
    that resolves to 0 (the automatic one does when there are fewer
    observations than devices), an empty observation set with a batch size
    that resolves to 0 or more, and the automatic batch size with a device
    count of 0 make the call raise [ZeroDivisionError], before any queue, job
    or worker exists. *)
Theorem degenerate_sizes_divide_by_zero (obs_points ref_points : list (@point coord))
    (batch_size n_gpus : setting) :
  resolve_batch_size (Z.of_nat (length obs_points)) batch_size
    (resolve_n_gpus cu n_gpus) = Returns 0%Z \/
  (batch_size = Auto /\
   (Z.of_nat (length obs_points) < resolve_n_gpus cu n_gpus)%Z) \/
  (obs_points = [] /\
   exists S, resolve_batch_size 0 batch_size (resolve_n_gpus cu n_gpus) = Returns S /\
             (0 <= S)%Z) \/
  (batch_size = Auto /\ resolve_n_gpus cu n_gpus = 0%Z) ->
  get_nearest_round haversine ltb cu obs_points ref_points batch_size true n_gpus
  = Raises ZeroDivisionError /\
  get_nearest haversine ltb cu obs_points ref_points batch_size true n_gpus
  = Raises ZeroDivisionError.
Proof.
  intros Hcase.
  assert (Hround : get_nearest_round haversine ltb cu obs_points ref_points
                     batch_size true n_gpus = Raises ZeroDivisionError).
  { rewrite get_nearest_round_multi.
    assert (Hmin0 : forall n : nat, Z.min 0 (Z.of_nat n) = 0%Z) by (intros; lia).
    destruct Hcase as [Hz|[[-> Hlt]|[[-> (S & HS & Hpos)]|[-> HG]]]].
    - rewrite Hz. cbn [mbind run_bind].
      by rewrite Hmin0, int_truediv_0_r.
    - cbn [resolve_batch_size]. rewrite int_truediv_small by lia.
      cbn [mbind run_bind]. by rewrite Hmin0, int_truediv_0_r.
    - cbn [length]. change (Z.of_nat 0) with 0%Z. rewrite HS.
      cbn [mbind run_bind]. by rewrite Z.min_r, int_truediv_0_r by lia.
    - cbn [resolve_batch_size]. by rewrite HG, int_truediv_0_r. }
  split; [done|]. unfold get_nearest. by rewrite Hround.
Qed.

End Proofs.

(** * The statements on the small instance *)

(** Three observations on two devices: batch size 1, three jobs, queue 0
    gets jobs 0 and 2, queue 1 gets job 1.  References 0 and 2 tie for the
    first observation and index 0 is returned. *)
Example get_nearest_three_obs :
  get_nearest grid_distance Z.ltb two_devices three_obs three_refs Auto true Auto
  = Returns ([Some 0; Some 1; Some 1], [Some 2%Z; Some 6%Z; Some 2%Z]).
Proof. vm_compute. reflexivity. Qed.

Example queues_three_obs :
  (fun r => (fun q => job_range <$> items q) <$> r_queues r)
    <$> get_nearest_round grid_distance Z.ltb two_devices three_obs three_refs
          Auto true Auto
  = Returns [[(0, 1); (2, 3)]; [(1, 2)]]%Z.
Proof. vm_compute. reflexivity. Qed.

(** Five observations with batch size 2: two jobs, the last one takes the
    remainder. *)
Example ranges_five_obs :
  (fun r => (puts (r_log r)).*2)
    <$> get_nearest_round grid_distance Z.ltb two_devices five_obs three_refs
          (Num 2) true Auto
  = Returns [(0, 2); (2, 5)]%Z.
Proof. vm_compute. reflexivity. Qed.

(** A batch size larger than the observation set gives one job. *)
Example ranges_large_batch :
  (fun r => (puts (r_log r)).*2)
    <$> get_nearest_round grid_distance Z.ltb two_devices three_obs three_refs
          (Num 7) true Auto
  = Returns [(0, 3)]%Z.
Proof. vm_compute. reflexivity. Qed.

(** No queue for the jobs: [queues[0]] raises. *)
Example no_queue_three_obs :
  get_nearest grid_distance Z.ltb two_devices three_obs three_refs
    (Num 1) true (Num 0) = Raises IndexError.
Proof. vm_compute. reflexivity. Qed.

(** [<] on integers is a strict weak order. *)
Lemma Z_ltb_strict_weak_order : strict_weak_order Z.ltb.
Proof.
  split.
  - intros x. apply Z.ltb_irrefl.
  - intros x y z Hxy%Z.ltb_lt Hyz%Z.ltb_lt. apply Z.ltb_lt. lia.
  - intros x y z Hxz%Z.ltb_lt.
    destruct (Z.ltb_spec x y); [by left|right]. apply Z.ltb_lt. lia.
Defined.


(** Three jobs on two queues: the queue lengths 2 and 1 differ by one. *)
Lemma jobs_dealt_round_robin_witness :
  let r := round_of grid_distance Z.ltb two_devices three_obs three_refs 1 3 2 in
  get_nearest_round grid_distance Z.ltb two_devices three_obs three_refs
    Auto true Auto = Returns r /\
  forall Q1 Q2, Q1 ∈ r_queues r -> Q2 ∈ r_queues r ->
    length (items Q1) <= length (items Q2) + 1.
Proof.
  assert (Hr : get_nearest_round grid_distance Z.ltb two_devices three_obs
                 three_refs Auto true Auto
               = Returns (round_of grid_distance Z.ltb two_devices three_obs
                            three_refs 1 3 2)) by (vm_compute; reflexivity).
  split; [exact Hr|].
  destruct (jobs_dealt_round_robin grid_distance Z.ltb two_devices three_obs
              three_refs Auto Auto _ Hr) as (_ & _ & Hbal).
  exact Hbal.
Defined.





(** One observation on two devices with the default arguments: the batch
    size is [int(1/2) = 0] and the call returns nothing. *)
Lemma nearest_needs_a_batch_counterexample :
  1 <= length one_obs /\ 1 <= length three_refs /\
  ~ exists indices distances,
      get_nearest grid_distance Z.ltb two_devices one_obs three_refs
        Auto true Auto = Returns (indices, distances).
Proof.
  split; [cbn; lia|]. split; [cbn; lia|].
  intros (indices & distances & Hget). vm_compute in Hget. discriminate Hget.
Qed.

(** Three observations, three references, two devices. *)
Lemma nearest_reference_found_witness :
  exists indices distances,
    get_nearest grid_distance Z.ltb two_devices three_obs three_refs
      Auto true Auto = Returns (indices, distances) /\
    forall i o, three_obs !! i = Some o ->
      exists j r,
        indices !! i = Some (Some j) /\
        three_refs !! j = Some r /\
        distances !! i = Some (Some (grid_distance o r)) /\
        forall k r', three_refs !! k = Some r' ->
          (grid_distance o r' <? grid_distance o r)%Z = false.
Proof.
  destruct (nearest_reference_found grid_distance Z.ltb two_devices three_obs
              three_refs Auto true Auto)
    as (indices & distances & Hget & _ & _ & Hnear).
  - exact Z_ltb_strict_weak_order.
  - cbn. lia.
  - cbn. lia.
  - intros. reflexivity.
  - intros _. exists 1%Z. split; [reflexivity|]. cbn. lia.
  - exists indices, distances. split; [exact Hget | exact Hnear].
Defined.

(** One observation on two devices: the multi-device path raises where the
    single-device path returns. *)
Lemma single_and_multi_differ_counterexample :
  get_nearest grid_distance Z.ltb two_devices one_obs three_refs Auto true Auto
  <> get_nearest grid_distance Z.ltb two_devices one_obs three_refs Auto false Auto.
Proof. vm_compute. discriminate. Qed.

(** Three observations: two devices, and one device, against the
    single-device path. *)
Lemma single_and_multi_agree_witness :
  get_nearest grid_distance Z.ltb two_devices three_obs three_refs Auto true Auto
  = get_nearest grid_distance Z.ltb two_devices three_obs three_refs Auto false Auto /\
  get_nearest grid_distance Z.ltb two_devices three_obs three_refs Auto true (Num 1)
  = get_nearest grid_distance Z.ltb two_devices three_obs three_refs Auto false Auto.
Proof.
  destruct (single_and_multi_agree grid_distance Z.ltb two_devices three_obs three_refs)
    as [Hany Hone].
  - cbn. lia.
  - intros. reflexivity.
  - split.
    + apply (Hany Auto Auto 1%Z); [reflexivity | lia | cbn; lia].
    + apply Hone. cbn. lia.
Defined.

(** A batch size of -1, an empty reference set, and five devices asked
    for where two exist: each call returns without any error. *)
Lemma unchecked_configuration_counterexample :
  (exists out,
     get_nearest grid_distance Z.ltb two_devices three_obs three_refs
       (Num (-1)) true Auto = Returns out) /\
  (exists out,
     get_nearest grid_distance Z.ltb two_devices three_obs []
       Auto true Auto = Returns out) /\
  (exists out,
     get_nearest grid_distance Z.ltb two_devices five_obs three_refs
       Auto true (Num 5) = Returns out).
Proof. repeat split; eexists; vm_compute; reflexivity. Qed.

(** The automatic batch size with one observation on two devices, and an
    explicit batch size of 0. *)
Lemma degenerate_sizes_divide_by_zero_witness :
  get_nearest grid_distance Z.ltb two_devices one_obs three_refs Auto true Auto
  = Raises ZeroDivisionError /\
  get_nearest grid_distance Z.ltb two_devices three_obs three_refs (Num 0) true Auto
  = Raises ZeroDivisionError.
Proof.
  split.
  - apply (degenerate_sizes_divide_by_zero grid_distance Z.ltb two_devices
             one_obs three_refs Auto Auto).
    right. left. split; [reflexivity | cbn; lia].
  - apply (degenerate_sizes_divide_by_zero grid_distance Z.ltb two_devices
             three_obs three_refs (Num 0) Auto).
    left. reflexivity.
Defined.

(** Two observations on three devices with the automatic batch size: the
    call returns nothing. *)
Lemma fewer_observations_auto_counterexample :
  (Z.of_nat (length two_obs) < resolve_n_gpus three_devices Auto)%Z /\
  ~ exists indices distances,
      get_nearest grid_distance Z.ltb three_devices two_obs three_refs
        Auto true Auto = Returns (indices, distances).
Proof.
  split; [cbn; lia|].
  intros (indices & distances & Hget). vm_compute in Hget. discriminate Hget.
Qed.

(** Two observations on three devices with batch size 1: the third queue
    is empty and its worker returns at once. *)
Lemma fewer_observations_than_devices_witness :
  exists r,
    get_nearest_round grid_distance Z.ltb three_devices two_obs three_refs
      (Num 1) true Auto = Returns r /\
    length (r_queues r) = 3 /\
    forall q Q w,
      2 <= q -> r_queues r !! q = Some Q -> r_workers r !! q = Some w ->
      items Q = [] /\ unfinished_tasks Q = 0 /\ w_end w = Returned /\ w_iters w = 0.
Proof.
  destruct (fewer_observations_than_devices grid_distance Z.ltb three_devices
              two_obs three_refs 1 Auto)
    as (r & Hr & _ & Hlen & _ & Hidle & _).
  - exact Z_ltb_strict_weak_order.
  - cbn. lia.
  - cbn. lia.
  - intros. reflexivity.
  - lia.
  - cbn. lia.
  - exists r. split; [exact Hr|]. split; [exact Hlen | exact Hidle].
Defined.



(** Every launch on device 0 fails: the call returns normally, with cell 0
    unwritten and cell 1 filled. *)
Lemma failure_is_not_propagated_counterexample :
  launch_ok device0_fails 0 0 1 = false /\
  exists indices distances,
    get_nearest grid_distance Z.ltb device0_fails three_obs three_refs
      Auto true Auto = Returns (indices, distances) /\
    indices !! 0 = Some None /\ indices !! 1 = Some (Some 1).
Proof.
  split; [reflexivity|]. do 2 eexists. split; [vm_compute; reflexivity|].
  split; reflexivity.
Qed.

(** Every job fails on device 0 after it stored an index: the job behind
    the failed one is never started and its cell stays as allocated. *)
Lemma failed_worker_dies_alone_witness :
  exists r,
    get_nearest_round grid_distance Z.ltb device0_fails_late three_obs three_refs
      Auto true Auto = Returns r /\
    get_nearest grid_distance Z.ltb device0_fails_late three_obs three_refs
      Auto true Auto = Returns (out_idx (r_mem r), out_dist (r_mem r)) /\
    out_idx (r_mem r) !! 2 = Some None /\ out_dist (r_mem r) !! 2 = Some None.
Proof.
  destruct (failed_worker_dies_alone grid_distance Z.ltb device0_fails_late three_obs
              three_refs Auto Auto 1)
    as (r & Hr & Hget & _ & _ & Hbehind & _).
  - cbn. lia.
  - lia.
  - reflexivity.
  - cbn. lia.
  - exists r. split; [exact Hr|]. split; [exact Hget|].
    assert (Hr' : r = round_of grid_distance Z.ltb device0_fails_late three_obs
                        three_refs 1 3 2).
    { apply Returns_inj. rewrite <- Hr. vm_compute. reflexivity. }
    apply (Hbehind 0 (queue_of three_obs three_refs 3 1 3 2 3 0)
             (make_job three_obs three_refs 3 1 3 0)
             [make_job three_obs three_refs 3 1 3 2]
             (make_job three_obs three_refs 3 1 3 2) 2).
    + rewrite Hr'. reflexivity.
    + cbn. lia.
    + reflexivity.
    + apply list_elem_of_singleton. reflexivity.
    + split; [vm_compute; discriminate | vm_compute; reflexivity].
Defined.

(** The same failure: the caller gets the index that the failed job had
    stored in cell 0, next to a distance cell that was never written. *)
Example get_nearest_late_failure :
  get_nearest grid_distance Z.ltb device0_fails_late three_obs three_refs Auto true Auto
  = Returns ([Some 7; Some 1; None], [None; Some 6%Z; None]).
Proof. vm_compute. reflexivity. Qed.

(** * More about the two functions *)

Section More.

Context {coord D : Type}.
Variable haversine : @point coord -> @point coord -> D.
Variable ltb : D -> D -> bool.
Variable cu : cuda D.

Local Abbreviation run_jobs := (fold_left (fun m jb => run_job haversine ltb jb m)).

(** ** The arrays keep their length *)

Lemma length_worker_loop (cid : nat) (its : list (job coord)) :
  forall (unf k : nat) (m : device_mem D),
  length (out_idx (w_mem (worker_loop haversine ltb cu cid its unf k m)))
  = length (out_idx m) /\
  length (out_dist (w_mem (worker_loop haversine ltb cu cid its unf k m)))
  = length (out_dist m).
Proof.
  induction its as [|jb rest IH]; intros unf k m.
  - by destruct unf.
  - destruct unf as [|unf]; [done|]. cbn [worker_loop].
    destruct (launch_ok cu cid (start jb) (end_ jb)); [|apply length_fail_job].
    destruct (IH unf (S k) (run_job haversine ltb jb m)) as [-> ->].
    apply length_run_job.
Qed.

Lemma length_start_workers (queues : list (Queue (job coord))) :
  forall (qid : nat) (m : device_mem D),
  length (out_idx (start_workers haversine ltb cu qid queues m).2)
  = length (out_idx m) /\
  length (out_dist (start_workers haversine ltb cu qid queues m).2)
  = length (out_dist m).
Proof.
  induction queues as [|q qs IH]; intros qid m; [done|].
  cbn [start_workers snd].
  destruct (IH (S qid) (w_mem (_get_nearest_multi haversine ltb cu q qid m)))
    as [-> ->].
  unfold _get_nearest_multi.
  destruct (qid <? n_devices cu)%nat; [apply length_worker_loop | done].
Qed.

Lemma output_lengths (obs_points ref_points : list (@point coord))
    (batch_size : setting) (multigpu : bool) (n_gpus : setting) (r : round coord D) :
  get_nearest_round haversine ltb cu obs_points ref_points batch_size multigpu n_gpus
  = Returns r ->
  length (out_idx (r_mem r)) = length obs_points /\
  length (out_dist (r_mem r)) = length obs_points.
Proof.
  intros Hround. destruct multigpu.
  - apply get_nearest_round_inv in Hround as (S & J & _ & _ & _ & ->).
    unfold round_of. cbn [r_mem].
    destruct (length_start_workers
                (queue_of obs_points ref_points (Z.of_nat (length obs_points)) S J
                   (Z.to_nat (resolve_n_gpus cu n_gpus)) (Z.to_nat J)
                 <$> seq 0 (Z.to_nat (resolve_n_gpus cu n_gpus)))
                0 (device_arrays (length obs_points))) as [-> ->].
    cbn [device_arrays out_idx out_dist]. by rewrite !length_replicate.
  - rewrite get_nearest_round_single in Hround.
    destruct (launch_ok cu 0 0 _); [|done].
    apply Returns_inj in Hround. subst r. cbn [r_mem out_idx out_dist].
    by rewrite !length_fmap.
Qed.

(** X1.  Whatever its queue holds (any ranges, any counter) and whatever
    fails, a worker leaves both output arrays with the length they had; and
    the arrays that [get_nearest] returns, on either path and with any
    arguments, have one cell per observation. *)
Theorem output_arrays_keep_length :
  (forall (q : Queue (job coord)) (cid : nat) (m : device_mem D),
     length (out_idx (w_mem (_get_nearest_multi haversine ltb cu q cid m)))
     = length (out_idx m) /\
     length (out_dist (w_mem (_get_nearest_multi haversine ltb cu q cid m)))
     = length (out_dist m)) /\
  (forall obs_points ref_points batch_size multigpu n_gpus indices distances,
     get_nearest haversine ltb cu obs_points ref_points batch_size multigpu n_gpus
     = Returns (indices, distances) ->
     length indices = length obs_points /\ length distances = length obs_points).
Proof.
  split.
  - intros q cid m. unfold _get_nearest_multi.
    destruct (cid <? n_devices cu)%nat; [apply length_worker_loop | done].
  - intros obs_points ref_points batch_size multigpu n_gpus indices distances.
    unfold get_nearest.
    destruct (get_nearest_round _ _ _ _ _ _ _ _) as [r| |] eqn:Hround; [|done..].
    cbn [mbind run_bind]. intros Hret. apply Returns_inj in Hret.
    injection Hret as <- <-.
    by apply (output_lengths obs_points ref_points batch_size multigpu n_gpus).
Qed.

(** ** The loop of a worker follows the counter, not the items *)

Lemma worker_loop_counter (cid : nat) (its : list (job coord)) :
  forall (unf k : nat) (m : device_mem D),
  Forall (fun jb => launch_ok cu cid (start jb) (end_ jb) = true) its ->
  worker_loop haversine ltb cu cid its unf k m =
  {| w_end := if decide (unf <= length its) then Returned else Blocked;
     w_queue := {| items := drop unf its; unfinished_tasks := unf - length its |};
     w_mem := run_jobs (take unf its) m;
     w_iters := k + unf `min` length its |}.
Proof.
  induction its as [|jb rest IH]; intros unf k m Hok.
  - destruct unf as [|unf]; cbn; f_equal; lia.
  - apply Forall_cons in Hok as [Hjb Hrest].
    destruct unf as [|unf]; [cbn; f_equal; lia|].
    cbn [worker_loop]. rewrite Hjb, IH by done.
    cbn [length drop take fold_left]. f_equal; [|lia].
    repeat case_decide; (done || lia).
Qed.

(** X2.  On an existing device with no failing launch, the loop of
    [_get_nearest_multi] makes as many iterations as the smaller of the
    counter and the number of items, taking the items in the order of the
    queue.  It returns when the counter does not exceed the items, leaving the
    items beyond the counter in the queue; it blocks in [get] for ever when
    the counter exceeds the items. *)
Theorem worker_follows_the_counter (q : Queue (job coord)) (cid : nat)
    (m : device_mem D) :
  cid < n_devices cu ->
  (forall jb, jb ∈ items q -> launch_ok cu cid (start jb) (end_ jb) = true) ->
  let w := _get_nearest_multi haversine ltb cu q cid m in
  w_iters w = unfinished_tasks q `min` length (items q) /\
  w_mem w = run_jobs (take (unfinished_tasks q) (items q)) m /\
  items (w_queue w) = drop (unfinished_tasks q) (items q) /\
  unfinished_tasks (w_queue w) = unfinished_tasks q - length (items q) /\
  (unfinished_tasks q <= length (items q) -> w_end w = Returned) /\
  (length (items q) < unfinished_tasks q -> w_end w = Blocked).
Proof.
  intros Hdev Hok w. subst w. unfold _get_nearest_multi.
  destruct (Nat.ltb_spec cid (n_devices cu)); [|lia].
  rewrite worker_loop_counter by (by apply Forall_forall).
  cbn [w_iters w_mem w_queue w_end items unfinished_tasks].
  repeat split; try done; intros; case_decide; (done || lia).
Qed.

(** ** Which calls return *)

Lemma resolve_batch_size_cases (size : Z) (batch_size : setting) (n_gpus : Z) :
  (batch_size = Auto /\ n_gpus = 0%Z /\
   resolve_batch_size size batch_size n_gpus = Raises ZeroDivisionError) \/
  exists S, resolve_batch_size size batch_size n_gpus = Returns S.
Proof.
  destruct batch_size as [|b]; [|right; by exists b].
  cbn [resolve_batch_size]. unfold int_truediv.
  destruct (Z.eqb_spec n_gpus 0); [by left | right; eauto].
Qed.

Lemma get_nearest_multi_resolved (obs_points ref_points : list (@point coord))
    (batch_size n_gpus : setting) (S : Z) :
  resolve_batch_size (Z.of_nat (length obs_points)) batch_size
    (resolve_n_gpus cu n_gpus) = Returns S ->
  let N := Z.of_nat (length obs_points) in
  let G := resolve_n_gpus cu n_gpus in
  let call := get_nearest haversine ltb cu obs_points ref_points batch_size true n_gpus in
  (S = 0 \/ (N = 0 /\ 0 <= S) -> call = Raises ZeroDivisionError)%Z /\
  (S < 0 \/ (1 <= S /\ 1 <= N /\ 1 <= G) -> exists out, call = Returns out)%Z /\
  (1 <= S /\ 1 <= N /\ G <= 0 -> call = Raises IndexError)%Z.
Proof.
  intros Hres N G call. subst call N G. unfold get_nearest.
  rewrite get_nearest_round_multi, Hres. cbn [mbind run_bind].
  split; [|split].
  - intros Hz.
    replace (Z.min S (Z.of_nat (length obs_points))) with 0%Z by lia.
    by rewrite int_truediv_0_r.
  - intros Hv. unfold int_truediv.
    destruct (Z.eqb_spec (Z.min S (Z.of_nat (length obs_points))) 0); [lia|].
    cbn [mbind run_bind].
    rewrite decide_True; [cbn; eauto|].
    destruct Hv as [Hneg|(HS & HN & HG)]; [left|right; lia].
    destruct (Z.le_gt_cases 1 (Z.quot (Z.of_nat (length obs_points))
                (Z.min S (Z.of_nat (length obs_points))))) as [Hq|Hq]; [|lia].
    apply quot_pos_inv in Hq; lia.
  - intros (HS & HN & HG).
    rewrite int_truediv_n_jobs by done. cbn [mbind run_bind].
    destruct (n_jobs_bounds obs_points S HN HS) as [HJ _].
    rewrite decide_False; [done|]. lia.
Qed.

(** X3.  On the multi-device path, with [S] the resolved batch size, [N]
    the number of observations and [G] the device count, [get_nearest]
    returns exactly when [S < 0], or [S >= 1], [N >= 1] and [G >= 1]; it
    raises [IndexError] exactly when [S >= 1], [N >= 1] and [G <= 0]; it
    raises [ZeroDivisionError] exactly when [S = 0], or [N = 0] and [S >= 0],
    or the batch size is automatic and [G = 0].  It never raises a CUDA error
    and never hangs: what fails in a worker does not reach the caller. *)
Theorem multi_device_outcome (obs_points ref_points : list (@point coord))
    (batch_size n_gpus : setting) :
  let N := Z.of_nat (length obs_points) in
  let G := resolve_n_gpus cu n_gpus in
  let call := get_nearest haversine ltb cu obs_points ref_points batch_size true n_gpus in
  ((exists out, call = Returns out) <->
   exists S, resolve_batch_size N batch_size G = Returns S /\
             (S < 0 \/ (1 <= S /\ 1 <= N /\ 1 <= G))%Z) /\
  (call = Raises IndexError <->
   exists S, resolve_batch_size N batch_size G = Returns S /\
             (1 <= S /\ 1 <= N /\ G <= 0)%Z) /\
  (call = Raises ZeroDivisionError <->
   (batch_size = Auto /\ G = 0%Z) \/
   exists S, resolve_batch_size N batch_size G = Returns S /\
             (S = 0 \/ (N = 0 /\ 0 <= S))%Z) /\
  call <> Raises CudaError /\ call <> Hangs.
Proof.
  intros N G call.
  destruct (resolve_batch_size_cases N batch_size G) as [(Hauto & HG & Hres)|[S Hres]].
  - assert (Hcall : call = Raises ZeroDivisionError).
    { subst call. unfold get_nearest. rewrite get_nearest_round_multi.
      fold N G. by rewrite Hres. }
    rewrite Hcall.
    split; [|split; [|split; [|done]]].
    + split; [by intros [? ?] | intros (S & HS & _); congruence].
    + split; [done | intros (S & HS & _); congruence].
    + split; [by left | done].
  - destruct (get_nearest_multi_resolved obs_points ref_points batch_size n_gpus S Hres)
      as (Hzero & Hret & Hidx).
    fold N G call in Hzero, Hret, Hidx.
    assert (HN : (0 <= N)%Z) by (unfold N; lia).
    assert (Hone : forall S', resolve_batch_size N batch_size G = Returns S' -> S' = S)
      by (intros S' HS'; congruence).
    destruct (decide (S = 0 \/ (N = 0 /\ 0 <= S))%Z) as [Hz|Hnz].
    { rewrite (Hzero Hz).
      split; [|split; [|split; [|done]]].
      - split; [by intros [? ?] | intros (S' & ->%Hone & ?); lia].
      - split; [done | intros (S' & ->%Hone & ?); lia].
      - split; [right; eauto | done]. }
    destruct (decide (S < 0 \/ (1 <= S /\ 1 <= N /\ 1 <= G))%Z) as [Hv|Hnv].
    { destruct (Hret Hv) as [out Hout]. rewrite Hout.
      split; [|split; [|split; [|done]]].
      - split; eauto.
      - split; [done | intros (S' & ->%Hone & ?); lia].
      - split; [done|]. intros [[-> HG]|(S' & ->%Hone & ?)]; [|lia].
        cbn [resolve_batch_size] in Hres. rewrite HG, int_truediv_0_r in Hres.
        done. }
    assert (Hi : (1 <= S /\ 1 <= N /\ G <= 0)%Z) by lia.
    rewrite (Hidx Hi).
    split; [|split; [|split; [|done]]].
    + split; [by intros [? ?] | intros (S' & ->%Hone & ?); lia].
    + split; eauto.
    + split; [done|]. intros [[-> HG]|(S' & ->%Hone & ?)]; [|lia].
      cbn [resolve_batch_size] in Hres. rewrite HG, int_truediv_0_r in Hres.
      done.
Qed.

(** ** A negative batch size *)

Lemma round_of_workers (obs_points ref_points : list (@point coord)) (S J : Z) (G : nat) :
  let r := round_of haversine ltb cu obs_points ref_points S J G in
  length (r_queues r) = G /\
  length (r_workers r) = G /\
  forall q Q w, r_queues r !! q = Some Q -> r_workers r !! q = Some w ->
    w_iters w = length (if (q <? n_devices cu)%nat
                        then served cu q (items Q) else []) /\
    w_queue w
    = (if (q <? n_devices cu)%nat
       then {| items := drop (Datatypes.S (length (served cu q (items Q)))) (items Q);
               unfinished_tasks := length (items Q) - length (served cu q (items Q)) |}
       else Q) /\
    w_end w
    = (if decide (q < n_devices cu /\
                  length (served cu q (items Q)) = length (items Q))
       then Returned else Died CudaError).
Proof.
  intros r. subst r. unfold round_of. cbn [r_queues r_workers].
  set (queues := _ <$> seq 0 G).
  assert (Hlen : length queues = G) by (unfold queues; by rewrite length_fmap, length_seq).
  assert (Hcounted : Forall counted queues).
  { apply Forall_fmap, Forall_forall. intros q _. apply queue_of_counted. }
  destruct (start_workers_spec haversine ltb cu queues 0
              (device_arrays (length obs_points)) Hcounted) as (_ & Hl & _ & Hw).
  split; [done|]. split; [by rewrite Hl|].
  intros q Q w HQ Hwq. exact (Hw q w Q Hwq HQ).
Qed.

(** X4.  A batch size that resolves to a negative number is not refused:
    the call returns both arrays as they were allocated, one empty cell per
    observation.  No job was put, every queue is empty with a zero counter,
    and no worker made an iteration; the workers on existing devices
    returned. *)
Theorem negative_batch_size_does_no_work (obs_points ref_points : list (@point coord))
    (batch_size n_gpus : setting) (S : Z) :
  resolve_batch_size (Z.of_nat (length obs_points)) batch_size
    (resolve_n_gpus cu n_gpus) = Returns S ->
  (S < 0)%Z ->
  get_nearest haversine ltb cu obs_points ref_points batch_size true n_gpus
  = Returns (replicate (length obs_points) None, replicate (length obs_points) None) /\
  exists r,
    get_nearest_round haversine ltb cu obs_points ref_points batch_size true n_gpus
    = Returns r /\
    puts (r_log r) = [] /\
    written (r_mem r) = [] /\
    length (r_queues r) = Z.to_nat (resolve_n_gpus cu n_gpus) /\
    length (r_workers r) = Z.to_nat (resolve_n_gpus cu n_gpus) /\
    (forall Q, Q ∈ r_queues r -> Q = Queue_new) /\
    (forall q w, r_workers r !! q = Some w ->
       w_iters w = 0 /\ (q < n_devices cu -> w_end w = Returned)).
Proof.
  intros Hres HS.
  set (N := Z.of_nat (length obs_points)) in *.
  set (G := Z.to_nat (resolve_n_gpus cu n_gpus)).
  set (J := Z.quot N (Z.min S N)).
  assert (HJ : Z.to_nat J = 0).
  { destruct (Z.le_gt_cases 1 J) as [Hq|Hq]; [|lia].
    apply quot_pos_inv in Hq; unfold N in *; lia. }
  assert (Hround :
    get_nearest_round haversine ltb cu obs_points ref_points batch_size true n_gpus
    = Returns (round_of haversine ltb cu obs_points ref_points S J G)).
  { rewrite get_nearest_round_multi. fold N. rewrite Hres. cbn [mbind run_bind].
    unfold int_truediv. destruct (Z.eqb_spec (Z.min S N) 0); [lia|].
    cbn [mbind run_bind]. fold J. rewrite decide_True by (by left). done. }
  assert (Hmem := round_mem_idle haversine ltb cu obs_points ref_points S J G HJ).
  destruct (round_of_workers obs_points ref_points S J G) as (Hlq & Hlw & Hw).
  assert (Hqueues : forall q Q,
    r_queues (round_of haversine ltb cu obs_points ref_points S J G) !! q = Some Q ->
    Q = Queue_new).
  { intros q Q [_ ->]%lookup_round_queues. unfold queue_of. by rewrite HJ. }
  split.
  - unfold get_nearest. rewrite Hround. cbn [mbind run_bind]. by rewrite Hmem.
  - eexists. split; [exact Hround|].
    split. { unfold round_of. cbn [r_log]. rewrite puts_put_events, HJ. done. }
    split; [by rewrite Hmem|]. split; [done|]. split; [done|].
    split.
    + intros Q [q HQ]%list_elem_of_lookup. by eapply Hqueues.
    + intros q w Hwq.
      destruct (lookup_lt_is_Some_2
                  (r_queues (round_of haversine ltb cu obs_points ref_points S J G)) q)
        as [Q HQ].
      { rewrite Hlq, <- Hlw. by eapply lookup_lt_Some. }
      destruct (Hw q Q w HQ Hwq) as (Hit & _ & Hend).
      rewrite (Hqueues q Q HQ) in Hit, Hend. cbn [items Queue_new served] in Hit, Hend.
      split; [by destruct (q <? n_devices cu)%nat|].
      intros Hq. by rewrite decide_True in Hend.
Qed.

(** ** How many jobs, and how large *)

Lemma length_round_puts (obs_points ref_points : list (@point coord)) (S J : Z) (G : nat) :
  length (puts (r_log (round_of haversine ltb cu obs_points ref_points S J G)))
  = Z.to_nat J.
Proof.
  unfold round_of. cbn [r_log].
  by rewrite puts_put_events, length_fmap, length_seq.
Qed.

Lemma length_round_queue (obs_points ref_points : list (@point coord)) (S J : Z)
    (G q : nat) (Q : Queue (job coord)) :
  r_queues (round_of haversine ltb cu obs_points ref_points S J G) !! q = Some Q ->
  q < G /\
  length (items Q)
  = Z.to_nat J / G + (if decide (q < Z.to_nat J mod G) then 1 else 0).
Proof.
  intros [Hq ->]%lookup_round_queues. split; [done|].
  unfold queue_of. cbn [items]. rewrite length_fmap.
  apply length_dealt; lia.
Qed.

(** X5.  With the automatic batch size and a device count [G] between 1
    and the number [N] of observations, the batch size is [N / G] and the
    number of jobs is [G + (N mod G) / (N / G)]: at least [G], at most
    [2 * G - 1], and exactly [G] when [G] divides [N].  Every queue then
    holds one or two jobs. *)
Theorem automatic_batch_size_job_count (obs_points ref_points : list (@point coord))
    (n_gpus : setting) :
  (1 <= resolve_n_gpus cu n_gpus <= Z.of_nat (length obs_points))%Z ->
  let N := Z.of_nat (length obs_points) in
  let G := resolve_n_gpus cu n_gpus in
  resolve_batch_size N Auto G = Returns (N / G)%Z /\
  exists r,
    get_nearest_round haversine ltb cu obs_points ref_points Auto true n_gpus
    = Returns r /\
    let J := Z.of_nat (length (puts (r_log r))) in
    J = (G + (N mod G) / (N / G))%Z /\
    (G <= J <= 2 * G - 1)%Z /\
    ((N mod G = 0)%Z -> J = G) /\
    length (r_queues r) = Z.to_nat G /\
    forall Q, Q ∈ r_queues r -> 1 <= length (items Q) <= 2.
Proof.
  intros HG N G. fold N G in HG.
  set (S := (N / G)%Z).
  assert (HS : (1 <= S)%Z) by (apply Z.div_le_lower_bound; lia).
  assert (Hdm := Z.div_mod N G ltac:(lia)).
  assert (Hm := Z.mod_pos_bound N G ltac:(lia)). fold S in Hdm.
  assert (Hres : resolve_batch_size N Auto G = Returns S).
  { cbn [resolve_batch_size]. unfold int_truediv.
    destruct (Z.eqb_spec G 0); [lia|]. by rewrite Z.quot_div_nonneg by lia. }
  split; [done|].
  assert (HSN : (S <= N)%Z) by nia.
  set (J := Z.quot N (Z.min S N)).
  assert (HJ : J = (G + (N mod G) / S)%Z).
  { unfold J. rewrite Z.min_l, Z.quot_div_nonneg by lia.
    transitivity ((G * S + N mod G) / S)%Z; [by rewrite <- Hdm|].
    by rewrite Z.div_add_l by lia. }
  assert (Hr : (0 <= (N mod G) / S <= G - 1)%Z).
  { split; [apply Z.div_pos; lia|].
    apply Z.div_le_upper_bound; [lia|]. nia. }
  exists (round_of haversine ltb cu obs_points ref_points S J (Z.to_nat G)).
  split. { apply round_valid; (done || unfold N in *; lia). }
  rewrite length_round_puts. cbn zeta. rewrite Z2Nat.id by lia.
  split; [done|]. split; [lia|].
  split. { intros H0. rewrite HJ, H0, Z.div_0_l by lia. lia. }
  split. { by destruct (round_of_workers obs_points ref_points S J (Z.to_nat G)). }
  intros Q [q HQ]%list_elem_of_lookup.
  apply length_round_queue in HQ as [Hq ->].
  assert (Z.to_nat J / Z.to_nat G = 1) as ->.
  { symmetry. apply (Nat.div_unique _ _ _ (Z.to_nat J - Z.to_nat G)); lia. }
  case_decide; lia.
Qed.

(** X6.  With at least one observation, a batch size [S >= 1] and at
    least one queue, the job created last starts at a multiple of [S] and
    takes, with [M] the smaller of [S] and [N], [M + N mod M] cells: its own
    batch and all that is left over, which is fewer than two batches. *)
Theorem last_job_takes_the_rest (obs_points ref_points : list (@point coord))
    (batch_size n_gpus : setting) (S : Z) :
  1 <= length obs_points ->
  (1 <= S)%Z ->
  resolve_batch_size (Z.of_nat (length obs_points)) batch_size
    (resolve_n_gpus cu n_gpus) = Returns S ->
  (1 <= resolve_n_gpus cu n_gpus)%Z ->
  let N := Z.of_nat (length obs_points) in
  let M := Z.min S N in
  exists r s,
    get_nearest_round haversine ltb cu obs_points ref_points batch_size true n_gpus
    = Returns r /\
    last (puts (r_log r)).*2 = Some (s, N) /\
    s = (Z.of_nat (length (puts (r_log r)) - 1) * S)%Z /\
    (N - s = M + N mod M)%Z /\
    (M <= N - s < 2 * M)%Z.
Proof.
  intros HN HS Hres HG N M.
  set (J := Z.quot N M).
  destruct (n_jobs_bounds obs_points S ltac:(lia) HS) as [HJ1 HJ2]. fold N M J in HJ1, HJ2.
  exists (round_of haversine ltb cu obs_points ref_points S J
            (Z.to_nat (resolve_n_gpus cu n_gpus))), ((J - 1) * S)%Z.
  split; [by apply round_valid|].
  rewrite length_round_puts.
  unfold round_of at 1. cbn [r_log]. rewrite puts_put_events.
  assert (Hn : Z.to_nat J = Datatypes.S (Z.to_nat J - 1)) by lia.
  split.
  { rewrite Hn, seq_S, !fmap_app, last_app. cbn [fmap list_fmap last snd].
    rewrite (proj2 (Z.eqb_eq _ _)) by lia. f_equal. f_equal. lia. }
  split; [f_equal; lia|].
  assert (HM : (1 <= M)%Z) by (unfold M, N; lia).
  assert (Hdm := Z.div_mod N M ltac:(lia)).
  assert (Hm := Z.mod_pos_bound N M ltac:(lia)).
  assert (HJd : J = (N / M)%Z) by (unfold J; apply Z.quot_div_nonneg; unfold N; lia).
  assert (Hsize : (N - (J - 1) * S = M + N mod M)%Z).
  { destruct (Z.le_gt_cases S N) as [Hle|Hgt].
    - assert (M = S) as HMS by (unfold M; lia). rewrite HMS in *. nia.
    - assert (M = N) as HMN by (unfold M; lia).
      assert (J = 1%Z) as -> by (rewrite HJd, HMN; apply Z.div_same; unfold N; lia).
      rewrite HMN, Z.mod_same by (unfold N; lia). lia. }
  split; [done | lia].
Qed.

(** X7.  With at least one observation and at least one queue, a batch
    size of [N] or more makes one job for the whole range [[0, N)], on queue
    0: every other queue stays empty and its worker makes no iteration, so
    that only device 0 computes. *)
Theorem large_batch_uses_one_device (obs_points ref_points : list (@point coord))
    (batch_size n_gpus : setting) (S : Z) :
  1 <= length obs_points ->
  (Z.of_nat (length obs_points) <= S)%Z ->
  resolve_batch_size (Z.of_nat (length obs_points)) batch_size
    (resolve_n_gpus cu n_gpus) = Returns S ->
  (1 <= resolve_n_gpus cu n_gpus)%Z ->
  exists r,
    get_nearest_round haversine ltb cu obs_points ref_points batch_size true n_gpus
    = Returns r /\
    puts (r_log r) = [(0, (0%Z, Z.of_nat (length obs_points)))] /\
    (forall Q, r_queues r !! 0 = Some Q ->
       job_range <$> items Q = [(0%Z, Z.of_nat (length obs_points))]) /\
    (forall q Q w, 1 <= q ->
       r_queues r !! q = Some Q -> r_workers r !! q = Some w ->
       Q = Queue_new /\ w_iters w = 0).
Proof.
  intros HN HS Hres HG.
  set (N := Z.of_nat (length obs_points)) in *.
  set (G := Z.to_nat (resolve_n_gpus cu n_gpus)).
  assert (HJ : Z.quot N (Z.min S N) = 1%Z).
  { rewrite Z.min_r by lia. apply Z.quot_same. unfold N. lia. }
  exists (round_of haversine ltb cu obs_points ref_points S 1 G).
  split. { rewrite <- HJ. apply round_valid; (done || unfold N in *; lia). }
  assert (Hmod : 0 mod G = 0) by (apply Nat.Div0.mod_0_l).
  split.
  { unfold round_of. cbn [r_log]. rewrite puts_put_events.
    change (Z.to_nat 1) with 1. cbn [seq fmap list_fmap]. by rewrite Hmod. }
  assert (Hdealt : forall q, dealt G q 0 1 = if decide (0 = q) then [0] else []).
  { intros q. unfold dealt. cbn [seq]. rewrite filter_cons, filter_nil, Hmod.
    by destruct (decide (0 = q)). }
  split.
  { intros Q [_ ->]%lookup_round_queues. unfold queue_of.
    change (Z.to_nat 1) with 1. rewrite Hdealt. cbn [items].
    rewrite decide_True by done. reflexivity. }
  intros q Q w Hq HQ Hw.
  destruct (round_of_workers obs_points ref_points S 1 G) as (_ & _ & Hws).
  destruct (Hws q Q w HQ Hw) as (Hit & _).
  assert (Hempty : Q = Queue_new).
  { apply lookup_round_queues in HQ as [_ ->].
    unfold queue_of. change (Z.to_nat 1) with 1. rewrite Hdealt.
    rewrite decide_False by lia. done. }
  subst Q. cbn [items Queue_new served] in Hit.
  split; [done|]. by destruct (q <? n_devices cu)%nat.
Qed.

(** ** One [task_done] for each completed iteration *)

Lemma worker_loop_inv (cid : nat) (its : list (job coord)) :
  forall (unf k : nat) (m : device_mem D),
  let w := worker_loop haversine ltb cu cid its unf k m in
  w_iters w + unfinished_tasks (w_queue w) = k + unf /\
  (w_end w = Returned -> unfinished_tasks (w_queue w) = 0) /\
  exists taken, its = taken ++ items (w_queue w) /\
    ((w_iters w = k + length taken /\ w_mem w = run_jobs taken m) \/
     (exists done jb,
        taken = done ++ [jb] /\ w_iters w = k + length done /\
        w_end w = Died CudaError /\
        launch_ok cu cid (start jb) (end_ jb) = false /\
        w_mem w = fail_job cu cid jb (run_jobs done m))) /\
    (w_end w <> Died CudaError ->
     w_iters w = k + length taken /\ w_mem w = run_jobs taken m).
Proof.
  induction its as [|jb rest IH]; intros unf k m.
  - destruct unf as [|unf]; cbn; (split; [lia|]); (split; [done|]);
      exists []; cbn; rewrite Nat.add_0_r; auto.
  - destruct unf as [|unf]; cbn [worker_loop].
    { cbn. split; [lia|]. split; [done|]. exists []. cbn.
      rewrite Nat.add_0_r. auto. }
    destruct (launch_ok cu cid (start jb) (end_ jb)) eqn:Hjb.
    + destruct (IH unf (S k) (run_job haversine ltb jb m))
        as (Hsum & Hzero & taken & Hits & Hcase & Hret).
      set (w := worker_loop haversine ltb cu cid rest unf (S k)
                  (run_job haversine ltb jb m)) in *.
      cbn zeta. split; [lia|]. split; [done|].
      exists (jb :: taken). cbn [app length fold_left].
      split; [by rewrite Hits at 1|]. split.
      * destruct Hcase as [[Hit Hmem]|(dn & fj & -> & Hit & Hend & Hfj & Hmem)].
        -- left. split; [lia | done].
        -- right. exists (jb :: dn), fj. cbn [app length fold_left].
           split; [done|]. split; [lia | done].
      * intros Hd. destruct (Hret Hd) as [Hit Hmem]. split; [lia | done].
    + cbn. split; [lia|]. split; [done|]. exists [jb]. cbn.
      split; [done|]. split; [|done].
      right. exists [], jb. cbn. rewrite Nat.add_0_r. auto.
Qed.

Lemma _get_nearest_multi_sum (q : Queue (job coord)) (cid : nat) (m : device_mem D) :
  w_iters (_get_nearest_multi haversine ltb cu q cid m)
  + unfinished_tasks (w_queue (_get_nearest_multi haversine ltb cu q cid m))
  = unfinished_tasks q.
Proof.
  unfold _get_nearest_multi. destruct (cid <? n_devices cu)%nat; [|done].
  by destruct (worker_loop_inv cid (items q) (unfinished_tasks q) 0 m) as (-> & _).
Qed.

(** X8.  For every queue, whether its counter matches its items or not,
    and whatever fails: the iterations a worker completed and the counter it
    leaves add up to the counter it found, since [task_done] is called once
    at the end of each completed iteration and nowhere else; when it returns
    the counter is zero.  The worker took a prefix of the items off the
    queue.  Either it completed every job it took, and the memory it leaves
    is the effect of these jobs in the order of the queue; or the job it took
    last failed and the worker died in that iteration, and the memory is the
    effect of the jobs before it followed by what the failure left in the
    views of the failed job.  A worker that did not die is in the first
    case. *)
Theorem worker_accounts_for_every_task (q : Queue (job coord)) (cid : nat)
    (m : device_mem D) :
  let w := _get_nearest_multi haversine ltb cu q cid m in
  w_iters w + unfinished_tasks (w_queue w) = unfinished_tasks q /\
  (w_end w = Returned -> unfinished_tasks (w_queue w) = 0) /\
  exists taken, items q = taken ++ items (w_queue w) /\
    ((w_iters w = length taken /\ w_mem w = run_jobs taken m) \/
     (exists done jb,
        taken = done ++ [jb] /\ w_iters w = length done /\
        w_end w = Died CudaError /\
        launch_ok cu cid (start jb) (end_ jb) = false /\
        w_mem w = fail_job cu cid jb (run_jobs done m))) /\
    (w_end w <> Died CudaError ->
     w_iters w = length taken /\ w_mem w = run_jobs taken m).
Proof.
  cbn zeta. unfold _get_nearest_multi.
  destruct (cid <? n_devices cu)%nat.
  - exact (worker_loop_inv cid (items q) (unfinished_tasks q) 0 m).
  - cbn. split; [done|]. split; [done|]. exists []. cbn. auto.
Qed.

Lemma start_workers_sum (queues : list (Queue (job coord))) :
  forall (qid : nat) (m : device_mem D),
  sum_list (w_iters <$> (start_workers haversine ltb cu qid queues m).1)
  + sum_list ((fun w => unfinished_tasks (w_queue w))
              <$> (start_workers haversine ltb cu qid queues m).1)
  = sum_list (unfinished_tasks <$> queues).
Proof.
  induction queues as [|Q qs IH]; intros qid m; [done|].
  cbn [start_workers fst]. rewrite !fmap_cons. cbn [sum_list_with].
  pose proof (_get_nearest_multi_sum Q qid m) as Hsum.
  specialize (IH (S qid) (w_mem (_get_nearest_multi haversine ltb cu Q qid m))).
  unfold id in *. lia.
Qed.

Lemma sum_length_dealt (G n : nat) :
  1 <= G ->
  sum_list ((fun q => length (dealt G q 0 n)) <$> seq 0 G) = n.
Proof.
  intros HG.
  assert (Hc : forall ls : list (list nat),
            length (concat ls) = sum_list (length <$> ls)).
  { induction ls as [|l ls IH]; [done|]. cbn. by rewrite length_app, IH. }
  transitivity (length (seq 0 n)); [|apply length_seq].
  rewrite <- (Permutation_length (dealt_Permutation G n HG)), Hc.
  by rewrite <- list_fmap_compose.
Qed.

(** X9.  When a call on the multi-device path returns, every job that
    was put is accounted for once: the iterations completed by all the
    workers and the counters left on all the queues add up to the number of
    jobs.  The call thus returns with tasks unfinished exactly when some
    worker did not complete its queue. *)
Theorem every_job_done_or_left (obs_points ref_points : list (@point coord))
    (batch_size n_gpus : setting) (r : round coord D) :
  get_nearest_round haversine ltb cu obs_points ref_points batch_size true n_gpus
  = Returns r ->
  sum_list (w_iters <$> r_workers r)
  + sum_list ((fun w => unfinished_tasks (w_queue w)) <$> r_workers r)
  = length (puts (r_log r)) /\
  sum_list (unfinished_tasks <$> r_queues r) = length (puts (r_log r)) /\
  (sum_list (w_iters <$> r_workers r) = length (puts (r_log r)) <->
   Forall (fun w => unfinished_tasks (w_queue w) = 0) (r_workers r)).
Proof.
  intros (S & J & _ & _ & Hcase & ->)%get_nearest_round_inv.
  set (G := Z.to_nat (resolve_n_gpus cu n_gpus)) in *.
  rewrite length_round_puts.
  assert (Hq : sum_list (unfinished_tasks
                 <$> r_queues (round_of haversine ltb cu obs_points ref_points S J G))
               = Z.to_nat J).
  { unfold round_of. cbn [r_queues]. rewrite <- list_fmap_compose.
    destruct (decide (1 <= G)) as [HG|HG].
    - exact (sum_length_dealt G (Z.to_nat J) HG).
    - assert (G = 0) as -> by lia. destruct Hcase as [->|?]; [done | lia]. }
  assert (Hsum : sum_list (w_iters
                   <$> r_workers (round_of haversine ltb cu obs_points ref_points S J G))
                 + sum_list ((fun w => unfinished_tasks (w_queue w))
                   <$> r_workers (round_of haversine ltb cu obs_points ref_points S J G))
                 = Z.to_nat J).
  { rewrite <- Hq. unfold round_of. cbn [r_workers r_queues]. apply start_workers_sum. }
  split; [done|]. split; [done|].
  split.
  - intros Hall. assert (Hz : sum_list ((fun w => unfinished_tasks (w_queue w))
      <$> r_workers (round_of haversine ltb cu obs_points ref_points S J G)) = 0) by lia.
    revert Hz. clear.
    induction (r_workers _) as [|w ws IH]; [done|]. cbn. intros Hz.
    constructor; [lia | apply IH; lia].
  - intros Hall. rewrite <- Hsum.
    rewrite (sum_list_fmap_same 0 _ (fun w => unfinished_tasks (w_queue w)) Hall). lia.
Qed.

(** ** What a returned cell can hold *)

Lemma round_of_inv (obs_points ref_points : list (@point coord))
    (batch_size n_gpus : setting) (r : round coord D) :
  get_nearest_round haversine ltb cu obs_points ref_points batch_size true n_gpus
  = Returns r ->
  exists S,
    resolve_batch_size (Z.of_nat (length obs_points)) batch_size
      (resolve_n_gpus cu n_gpus) = Returns S /\
    r = round_of haversine ltb cu obs_points ref_points S
          (Z.quot (Z.of_nat (length obs_points))
                  (Z.min S (Z.of_nat (length obs_points))))
          (Z.to_nat (resolve_n_gpus cu n_gpus)) /\
    (Z.to_nat (Z.quot (Z.of_nat (length obs_points))
                      (Z.min S (Z.of_nat (length obs_points)))) = 0 \/
     (1 <= length obs_points /\ (1 <= S)%Z /\
      1 <= Z.to_nat (resolve_n_gpus cu n_gpus))).
Proof.
  intros (S & J & Hres & HJ & Hcase & ->)%get_nearest_round_inv.
  apply int_truediv_inv in HJ as [Hm ->].
  exists S. split; [done|]. split; [done|].
  destruct (decide (Z.to_nat (Z.quot (Z.of_nat (length obs_points))
                                (Z.min S (Z.of_nat (length obs_points)))) = 0))
    as [Hn0|Hn1]; [by left | right].
  destruct (quot_pos_inv (Z.of_nat (length obs_points))
              (Z.min S (Z.of_nat (length obs_points)))) as [Hmin _]; lia.
Qed.

(** X10.  Whatever the arguments, a call that returns hands back no
    wrong and no half-written cell outside the ranges of the jobs in whose
    iteration a worker died: the index cell and the distance cell of such an
    observation are either both as they were allocated, or hold the index and
    the distance that the two kernels compute for that observation from the
    whole reference set.  When no launch fails this holds for every cell. *)
Theorem cells_written_in_pairs (obs_points ref_points : list (@point coord))
    (batch_size : setting) (multigpu : bool) (n_gpus : setting) (r : round coord D) :
  get_nearest_round haversine ltb cu obs_points ref_points batch_size multigpu n_gpus
  = Returns r ->
  let paired i o :=
    (out_idx (r_mem r) !! i = Some None /\ out_dist (r_mem r) !! i = Some None) \/
    (out_idx (r_mem r) !! i
     = Some (cand_idx (reduce_pair haversine ltb 32 ref_points o)) /\
     out_dist (r_mem r) !! i
     = Some (cand_dist (reduce_pair haversine ltb 32 ref_points o))) in
  get_nearest haversine ltb cu obs_points ref_points batch_size multigpu n_gpus
  = Returns (out_idx (r_mem r), out_dist (r_mem r)) /\
  (forall i o, obs_points !! i = Some o ->
     ~ Exists (fun jb => covers jb i) (failed_all cu 0 (r_queues r)) ->
     paired i o) /\
  ((forall cid s e, launch_ok cu cid s e = true) ->
   forall i o, obs_points !! i = Some o -> paired i o).
Proof.
  intros Hround paired. subst paired. cbn beta.
  split; [unfold get_nearest; by rewrite Hround|]. split.
  - intros i o Ho Hnf.
    exact (get_nearest_cell_paired haversine ltb cu obs_points ref_points batch_size
             multigpu n_gpus r i o Hround Ho Hnf).
  - intros Hok i o Ho.
    apply (get_nearest_cell_paired haversine ltb cu obs_points ref_points batch_size
             multigpu n_gpus r i o Hround Ho).
    destruct (failed_all_ok cu (r_queues r) 0 Hok) as [-> _].
    by intros ?%Exists_nil.
Qed.

(** ** The single-device path *)

(** X11.  With [multigpu] off, [get_nearest] reads neither the batch
    size nor the device count, divides by nothing and starts no worker: it
    returns one result per observation, also for an empty observation set,
    when its launch succeeds, and a failing launch reaches the caller as a
    CUDA error, where the multi-device path would return. *)
Theorem single_device_path (obs_points ref_points : list (@point coord))
    (batch_size n_gpus : setting) :
  let call := get_nearest haversine ltb cu obs_points ref_points batch_size false n_gpus in
  (launch_ok cu 0 0 (Z.of_nat (length obs_points)) = true ->
   call = Returns
     ((fun o => cand_idx (reduce_pair haversine ltb 32 ref_points o)) <$> obs_points,
      (fun o => cand_dist (reduce_pair haversine ltb 32 ref_points o)) <$> obs_points)) /\
  (launch_ok cu 0 0 (Z.of_nat (length obs_points)) = false ->
   call = Raises CudaError) /\
  call <> Raises ZeroDivisionError /\ call <> Raises IndexError /\ call <> Hangs /\
  (forall r,
     get_nearest_round haversine ltb cu obs_points ref_points batch_size false n_gpus
     = Returns r ->
     r_queues r = [] /\ r_workers r = [] /\ r_log r = [] /\
     written (r_mem r) = seq 0 (length obs_points)) /\
  forall batch_size' n_gpus',
    get_nearest haversine ltb cu obs_points ref_points batch_size' false n_gpus' = call.
Proof.
  cbn zeta.
  assert (Hsame : forall batch_size' n_gpus',
    get_nearest haversine ltb cu obs_points ref_points batch_size' false n_gpus'
    = get_nearest haversine ltb cu obs_points ref_points batch_size false n_gpus).
  { intros. unfold get_nearest. by rewrite !get_nearest_round_single. }
  assert (Hround : forall r,
    get_nearest_round haversine ltb cu obs_points ref_points batch_size false n_gpus
    = Returns r ->
    r_queues r = [] /\ r_workers r = [] /\ r_log r = [] /\
    written (r_mem r) = seq 0 (length obs_points)).
  { intros r. rewrite get_nearest_round_single.
    destruct (launch_ok cu 0 0 (Z.of_nat (length obs_points))); [|done].
    by intros <-%Returns_inj. }
  unfold get_nearest in *. rewrite get_nearest_round_single in *.
  destruct (launch_ok cu 0 0 (Z.of_nat (length obs_points))); cbn [mbind run_bind].
  - split; [done|]. split; [done|]. do 3 (split; [done|]). by split.
  - split; [done|]. split; [done|]. do 3 (split; [done|]). by split.
Qed.

(** ** The jobs of one queue *)

Lemma lookup_dealt (G q n : nat) :
  1 <= G -> q < G ->
  forall k j, dealt G q 0 n !! k = Some j -> j = q + k * G /\ j < n.
Proof.
  intros HG Hq. induction n as [|n IH]; intros k j Hk; [done|].
  rewrite dealt_snoc in Hk. apply lookup_app_Some in Hk as [Hk|[Hlen Hk]].
  - destruct (IH k j Hk). split; [done | lia].
  - case_decide as Hmod; [|done].
    apply list_lookup_singleton_Some in Hk as [Hk0 <-].
    rewrite length_dealt in Hlen, Hk0 by done.
    rewrite decide_False in Hlen, Hk0 by lia.
    assert (k = n / G) as -> by lia.
    split; [|lia]. rewrite <- Hmod.
    rewrite (Nat.div_mod_eq n G) at 1. lia.
Qed.

(** X12.  In every round of the multi-device path, the [k]-th job of
    queue [q] is the job created as number [q + k * G], for [G] queues: it
    carries the two input arrays of the call and starts at observation
    [(q + k * G) * S], so that a worker meets the ranges of its queue in
    increasing order, [G] batches apart. *)
Theorem queue_jobs_in_stride (obs_points ref_points : list (@point coord))
    (batch_size n_gpus : setting) (S : Z) (r : round coord D) :
  resolve_batch_size (Z.of_nat (length obs_points)) batch_size
    (resolve_n_gpus cu n_gpus) = Returns S ->
  get_nearest_round haversine ltb cu obs_points ref_points batch_size true n_gpus
  = Returns r ->
  forall q Q k jb,
    r_queues r !! q = Some Q -> items Q !! k = Some jb ->
    let j := q + k * length (r_queues r) in
    puts (r_log r) !! j = Some (q, job_range jb) /\
    start jb = (Z.of_nat j * S)%Z /\
    d_m_obs jb = obs_points /\ d_m_ref jb = ref_points.
Proof.
  intros Hres (S' & J & Hres' & _ & _ & ->)%get_nearest_round_inv q Q k jb HQ Hjb.
  assert (S' = S) as -> by congruence.
  set (G := Z.to_nat (resolve_n_gpus cu n_gpus)) in *.
  destruct (round_of_workers obs_points ref_points S J G) as (-> & _).
  apply lookup_round_queues in HQ as [Hq ->].
  unfold queue_of in Hjb. cbn [items] in Hjb.
  apply list_lookup_fmap_Some in Hjb as (j & -> & Hj).
  destruct (lookup_dealt G q (Z.to_nat J) ltac:(lia) Hq k j Hj) as [-> Hlt].
  cbn zeta. split; [|by split].
  unfold round_of. cbn [r_log]. rewrite puts_put_events.
  rewrite list_lookup_fmap, lookup_seq_lt by done. cbn [fmap option_fmap option_map].
  change (0 + (q + k * G)) with (q + k * G).
  rewrite Nat.Div0.mod_add, Nat.mod_small by done. done.
Qed.

(** ** Devices that do not exist *)

(** X13.  A device count above the number of devices is not refused
    either.  In every round that returns, the worker of a queue whose number
    is not a device dies in [select_device] before it reads its queue: it
    makes no iteration and leaves the queue as it was filled, and the output
    cells of all the jobs of that queue come back as they were allocated. *)
Theorem missing_device_leaves_cells_empty (obs_points ref_points : list (@point coord))
    (batch_size n_gpus : setting) (r : round coord D) :
  get_nearest_round haversine ltb cu obs_points ref_points batch_size true n_gpus
  = Returns r ->
  forall q Q w,
    n_devices cu <= q ->
    r_queues r !! q = Some Q -> r_workers r !! q = Some w ->
    w_end w = Died CudaError /\ w_iters w = 0 /\ w_queue w = Q /\
    forall jb i, jb ∈ items Q -> covers jb i ->
      out_idx (r_mem r) !! i = Some None /\ out_dist (r_mem r) !! i = Some None.
Proof.
  intros (S & _ & -> & Hcase)%round_of_inv q Q w Hq HQ Hw.
  set (J := Z.quot (Z.of_nat (length obs_points))
                   (Z.min S (Z.of_nat (length obs_points)))) in *.
  set (G := Z.to_nat (resolve_n_gpus cu n_gpus)) in *.
  destruct (round_of_workers obs_points ref_points S J G) as (_ & _ & Hws).
  destruct (Hws q Q w HQ Hw) as (Hit & Hqueue & Hend).
  destruct (Nat.ltb_spec q (n_devices cu)); [lia|].
  rewrite decide_False in Hend by lia.
  split; [done|]. split; [done|]. split; [done|].
  intros jb i Hjb Hcov.
  destruct Hcase as [Hn0|(HN & HS & HG)].
  - apply lookup_round_queues in HQ as [_ ->].
    unfold queue_of in Hjb. rewrite Hn0 in Hjb. cbn in Hjb.
    by apply elem_of_nil in Hjb.
  - apply (round_unstarted_cell haversine ltb cu obs_points ref_points S G HN HS HG jb i);
      [|done].
    apply (unstarted_all_elem cu _ 0 q Q jb HQ). cbn [Nat.add].
    by destruct (Nat.ltb_spec q (n_devices cu)); [lia|].
Qed.

(** ** The shapes a job hands to the kernels *)

(** X14.  In every round of the multi-device path, the slices that a
    worker takes for a job are never clipped: the job has at least one row,
    the observation slice copied to the device holds exactly [end - start]
    observations, those from [start] on, and the view of each output array
    starts at cell [start] and has [end - start] cells.  The block arrays of
    [end - start] rows thus have one row for each observation of the slice
    and for each cell of the views. *)
Theorem job_slices_are_not_clipped (obs_points ref_points : list (@point coord))
    (batch_size n_gpus : setting) (r : round coord D) :
  get_nearest_round haversine ltb cu obs_points ref_points batch_size true n_gpus
  = Returns r ->
  forall Q jb, Q ∈ r_queues r -> jb ∈ items Q ->
    let rows := Z.to_nat (end_ jb - start jb) in
    1 <= rows /\
    slice (d_m_obs jb) (start jb) (end_ jb)
    = take rows (drop (Z.to_nat (start jb)) obs_points) /\
    length (slice (d_m_obs jb) (start jb) (end_ jb)) = rows /\
    slice_view (length (out_idx (r_mem r))) (start jb) (end_ jb)
    = (Z.to_nat (start jb), rows) /\
    slice_view (length (out_dist (r_mem r))) (start jb) (end_ jb)
    = (Z.to_nat (start jb), rows).
Proof.
  intros Hround Q jb HQ Hjb.
  assert (Hlen : length (out_idx (r_mem r)) = length obs_points /\
                 length (out_dist (r_mem r)) = length obs_points).
  { destruct (output_lengths obs_points ref_points batch_size true n_gpus r Hround).
    done. }
  destruct Hlen as [-> ->].
  apply round_of_inv in Hround as (S & _ & -> & [Hn0|(HN & HS & HG)]).
  { apply list_elem_of_lookup in HQ as [q [_ ->]%lookup_round_queues].
    unfold queue_of in Hjb. rewrite Hn0 in Hjb. cbn in Hjb.
    by apply elem_of_nil in Hjb. }
  assert (Hin : jb ∈ concat (items <$> r_queues (round_of haversine ltb cu obs_points
                  ref_points S (Z.quot (Z.of_nat (length obs_points))
                     (Z.min S (Z.of_nat (length obs_points))))
                  (Z.to_nat (resolve_n_gpus cu n_gpus))))).
  { apply elem_of_concat. exists (items Q). split; [done|].
    apply list_elem_of_fmap. by exists Q. }
  destruct (round_job_nonempty haversine ltb cu obs_points ref_points S _ HN HS HG jb Hin)
    as [Hse He].
  pose proof (round_jobs_ok haversine ltb cu obs_points ref_points S _ HN HS HG) as Hok.
  rewrite Forall_forall in Hok. destruct (Hok jb Hin) as (-> & _ & _ & _).
  cbn zeta.
  assert (Hs : slice_bound (length obs_points) (start jb) = Z.to_nat (start jb))
    by (apply slice_bound_inside; lia).
  assert (Hb : slice_bound (length obs_points) (end_ jb) = Z.to_nat (end_ jb))
    by (apply slice_bound_inside; lia).
  assert (Hrows : Z.to_nat (end_ jb) - Z.to_nat (start jb)
                  = Z.to_nat (end_ jb - start jb)) by lia.
  split; [lia|].
  split; [unfold slice; by rewrite Hs, Hb, Hrows|].
  split; [apply length_slice; lia|].
  unfold slice_view. by rewrite Hs, Hb, Hrows.
Qed.

End More.

(** ** The further statements on the small instance *)

(** A queue of one job whose counter says two: the worker completes the job
    and then waits for ever. *)
Lemma worker_follows_the_counter_witness :
  w_iters (_get_nearest_multi grid_distance Z.ltb two_devices
             {| items := [make_job three_obs three_refs 3 3 1 0];
                unfinished_tasks := 2 |} 0 (device_arrays 3)) = 1 /\
  w_end (_get_nearest_multi grid_distance Z.ltb two_devices
           {| items := [make_job three_obs three_refs 3 3 1 0];
              unfinished_tasks := 2 |} 0 (device_arrays 3)) = Blocked.
Proof.
  destruct (worker_follows_the_counter grid_distance Z.ltb two_devices
              {| items := [make_job three_obs three_refs 3 3 1 0];
                 unfinished_tasks := 2 |} 0 (device_arrays 3))
    as (Hit & _ & _ & _ & _ & Hblocked).
  - cbn. lia.
  - intros. reflexivity.
  - split; [exact Hit | apply Hblocked; cbn; lia].
Defined.

(** A batch size of -1. *)
Lemma negative_batch_size_does_no_work_witness :
  get_nearest grid_distance Z.ltb two_devices three_obs three_refs (Num (-1)) true Auto
  = Returns ([None; None; None], [None; None; None]).
Proof.
  apply (negative_batch_size_does_no_work grid_distance Z.ltb two_devices three_obs
           three_refs (Num (-1)) Auto (-1)); [reflexivity | lia].
Defined.

(** Five observations on three devices: five jobs of one observation. *)
Lemma automatic_batch_size_job_count_witness :
  exists r,
    get_nearest_round grid_distance Z.ltb three_devices five_obs three_refs
      Auto true Auto = Returns r /\
    Z.of_nat (length (puts (r_log r))) = 5%Z /\
    forall Q, Q ∈ r_queues r -> 1 <= length (items Q) <= 2.
Proof.
  destruct (automatic_batch_size_job_count grid_distance Z.ltb three_devices five_obs
              three_refs Auto) as (_ & r & Hr & HJ & _ & _ & _ & HQ).
  - cbn. lia.
  - exists r. split; [exact Hr|]. split; [exact HJ | exact HQ].
Defined.

(** Five observations in batches of two: the second and last job takes
    three. *)
Lemma last_job_takes_the_rest_witness :
  exists r s,
    get_nearest_round grid_distance Z.ltb two_devices five_obs three_refs
      (Num 2) true Auto = Returns r /\
    last (puts (r_log r)).*2 = Some (s, 5%Z) /\
    (5 - s = 3)%Z.
Proof.
  destruct (last_job_takes_the_rest grid_distance Z.ltb two_devices five_obs
              three_refs (Num 2) Auto 2) as (r & s & Hr & Hlast & _ & Hsize & _).
  - cbn. lia.
  - lia.
  - reflexivity.
  - cbn. lia.
  - exists r, s. split; [exact Hr|]. split; [exact Hlast | exact Hsize].
Defined.

(** Three observations with a batch size of seven. *)
Lemma large_batch_uses_one_device_witness :
  exists r,
    get_nearest_round grid_distance Z.ltb two_devices three_obs three_refs
      (Num 7) true Auto = Returns r /\
    puts (r_log r) = [(0, (0%Z, 3%Z))].
Proof.
  destruct (large_batch_uses_one_device grid_distance Z.ltb two_devices three_obs
              three_refs (Num 7) Auto 7) as (r & Hr & Hputs & _).
  - cbn. lia.
  - cbn. lia.
  - reflexivity.
  - cbn. lia.
  - exists r. split; [exact Hr | exact Hputs].
Defined.

(** Every launch on device 0 fails: its two jobs stay counted. *)
Lemma every_job_done_or_left_witness :
  sum_list (w_iters <$> r_workers
              (round_of grid_distance Z.ltb device0_fails three_obs three_refs 1 3 2))
  + sum_list ((fun w => unfinished_tasks (w_queue w)) <$> r_workers
                (round_of grid_distance Z.ltb device0_fails three_obs three_refs 1 3 2))
  = length (puts (r_log
              (round_of grid_distance Z.ltb device0_fails three_obs three_refs 1 3 2))).
Proof.
  destruct (every_job_done_or_left grid_distance Z.ltb device0_fails three_obs
              three_refs Auto Auto
              (round_of grid_distance Z.ltb device0_fails three_obs three_refs 1 3 2))
    as (Hsum & _).
  - vm_compute. reflexivity.
  - exact Hsum.
Defined.

(** Every job fails on device 0 after it stored an index: cell 1, whose
    job runs on device 1, holds its result in both arrays. *)
Lemma cells_written_in_pairs_witness :
  let r := round_of grid_distance Z.ltb device0_fails_late three_obs three_refs 1 3 2 in
  (out_idx (r_mem r) !! 1 = Some None /\ out_dist (r_mem r) !! 1 = Some None) \/
  (out_idx (r_mem r) !! 1
   = Some (cand_idx (reduce_pair grid_distance Z.ltb 32 three_refs (5, 5)%Z)) /\
   out_dist (r_mem r) !! 1
   = Some (cand_dist (reduce_pair grid_distance Z.ltb 32 three_refs (5, 5)%Z))).
Proof.
  destruct (cells_written_in_pairs grid_distance Z.ltb device0_fails_late three_obs
              three_refs Auto true Auto
              (round_of grid_distance Z.ltb device0_fails_late three_obs three_refs 1 3 2))
    as (_ & Hpaired & _).
  - vm_compute. reflexivity.
  - apply (Hpaired 1 (5, 5)%Z); [reflexivity|].
    change (failed_all device0_fails_late 0
              (r_queues (round_of grid_distance Z.ltb device0_fails_late three_obs
                           three_refs 1 3 2)))
      with [make_job three_obs three_refs 3 1 3 0].
    intros [Hcov|Hnil%Exists_nil]%Exists_cons; [|exact Hnil].
    destruct Hcov as [_ Hlt]. vm_compute in Hlt. discriminate Hlt.
Defined.

(** Five jobs of one observation on two queues. *)
Lemma queue_jobs_in_stride_witness :
  puts (r_log (round_of grid_distance Z.ltb two_devices five_obs three_refs 1 5 2)) !! 3
  = Some (1, job_range (make_job five_obs three_refs 5 1 5 3)) /\
  start (make_job five_obs three_refs 5 1 5 3) = 3%Z.
Proof.
  destruct (queue_jobs_in_stride grid_distance Z.ltb two_devices five_obs three_refs
              (Num 1) Auto 1
              (round_of grid_distance Z.ltb two_devices five_obs three_refs 1 5 2))
    with (q := 1) (Q := queue_of five_obs three_refs 5 1 5 2 5 1) (k := 1)
         (jb := make_job five_obs three_refs 5 1 5 3) as (Hput & Hstart & _).
  - reflexivity.
  - vm_compute. reflexivity.
  - reflexivity.
  - reflexivity.
  - split; [exact Hput | exact Hstart].
Defined.

(** Five devices asked for where two exist. *)
Lemma missing_device_leaves_cells_empty_witness :
  exists r Q w,
    get_nearest_round grid_distance Z.ltb two_devices five_obs three_refs
      Auto true (Num 5) = Returns r /\
    r_queues r !! 2 = Some Q /\ r_workers r !! 2 = Some w /\
    w_end w = Died CudaError /\ w_iters w = 0 /\ w_queue w = Q /\
    out_idx (r_mem r) !! 2 = Some None.
Proof.
  pose (r := round_of grid_distance Z.ltb two_devices five_obs three_refs 1 5 5).
  assert (Hr : get_nearest_round grid_distance Z.ltb two_devices five_obs three_refs
                 Auto true (Num 5) = Returns r) by (vm_compute; reflexivity).
  assert (HQ : r_queues r !! 2 = Some (queue_of five_obs three_refs 5 1 5 5 5 2))
    by reflexivity.
  destruct (lookup_lt_is_Some_2 (r_workers r) 2) as [w Hw]; [vm_compute; lia|].
  destruct (missing_device_leaves_cells_empty grid_distance Z.ltb two_devices five_obs
              three_refs Auto (Num 5) r Hr 2 _ w ltac:(cbn; lia) HQ Hw)
    as (Hend & Hit & Hqueue & Hcells).
  destruct (Hcells (make_job five_obs three_refs 5 1 5 2) 2) as [Hidx _].
  - apply list_elem_of_lookup. exists 0. reflexivity.
  - split; [vm_compute; discriminate | vm_compute; reflexivity].
  - exists r, (queue_of five_obs three_refs 5 1 5 5 5 2), w.
    repeat (split; [assumption|]). assumption.
Defined.

(** Three jobs of one observation. *)
Lemma job_slices_are_not_clipped_witness :
  slice three_obs 1 2 = [(5, 5)%Z] /\
  slice_view
    (length (out_idx (r_mem (round_of grid_distance Z.ltb two_devices three_obs
                               three_refs 1 3 2)))) 1 2
  = (1, 1).
Proof.
  destruct (job_slices_are_not_clipped grid_distance Z.ltb two_devices three_obs
              three_refs Auto Auto
              (round_of grid_distance Z.ltb two_devices three_obs three_refs 1 3 2))
    with (Q := queue_of three_obs three_refs 3 1 3 2 3 1)
         (jb := make_job three_obs three_refs 3 1 3 1) as (_ & Hslice & _ & Hview & _).
  - vm_compute. reflexivity.
  - apply list_elem_of_lookup. exists 1. reflexivity.
  - apply list_elem_of_lookup. exists 0. reflexivity.
  - split; [exact Hslice | exact Hview].
Defined.
